(** * ASCII-CLI-Video-Python: the pacing engine of [acvp.py]

    A shallow embedding of [video_to_ascii_cli] and of the [__main__]
    block of [src/acvp.py].

    Numbers.  Python floats (clock readings, the frame rate, the frame
    delay, the slack) are modelled by exact rationals [Q]; rounding,
    infinities and NaN are outside the model.  Integers are [Z].

    Effects.  The function talks to a clock, a frame source, a glyph
    renderer, the file system and an audio player.  Their answers are
    given by an environment [env]; the program itself is written in a
    state-and-exception monad [M] over a [state] that holds the Python
    locals together with the observable world (remaining frames, files,
    log of external actions).

    Left out: the creation of the [Temp] directory (lines 17-21), the
    screen clear, the variables that are assigned and never read
    ([total_frames], [expected_time], [frame_start], [processing_time])
    and most informational prints.  [cv2.resize] is taken to return a
    frame of the size it is asked for. *)

From Stdlib Require Import ZArith QArith Qround Qabs List Bool Lia Lqa.
From stdpp Require Import gmap strings.
Import ListNotations.

Local Open Scope Z_scope.

(** ** Python values *)

(** The exception classes the handlers of [acvp.py] distinguish:
    [AttributeError], any other subclass of [Exception], and
    [KeyboardInterrupt] (which is not an [Exception]). *)
Inductive exn : Type :=
| AttributeError
| OtherException
| KeyboardInterrupt.

(** [isinstance(e, Exception)] *)
Definition is_Exception (e : exn) : bool :=
  match e with
  | KeyboardInterrupt => false
  | _ => true
  end.

(** A decoded raster frame, as far as the program inspects it:
    [frame.shape[:2]] is [(height, width)]. *)
Record frame : Type := Frame { height : Z; width : Z }.

(** The object returned by [AsciiArt.from_array] / [AsciiArt.from_image]:
    it wraps the picture it was built from. *)
Inductive ascii_art : Type := AsciiArt (src : frame).

(** What a path of the file system holds. *)
Inductive file : Type :=
| AudioFile (size : Z)
| FrameFile (pic : frame).

(** [os.path.getsize]; an image written by [cv2.imwrite] is never empty. *)
Definition getsize (f : file) : Z :=
  match f with
  | AudioFile n => n
  | FrameFile _ => 1
  end.

(** Actions on the outside world, in the order they happened. *)
Inductive event : Type :=
| EvRead (ret : bool)              (* cap.read() returned, with its flag *)
| EvDisplay (columns : Z) (pic : frame)   (* to_terminal(columns=...) *)
| EvSleep (d : Q)                  (* time.sleep(d) *)
| EvWriteFrame (p : string)        (* cv2.imwrite(p, frame) *)
| EvRemove (p : string)            (* os.remove(p) *)
| EvPlay (p : string)              (* playsound(p, block=False) *)
| EvRelease                        (* cap.release() *)
| EvPrint (msg : string).          (* print(msg...) *)

(** [int(x)] on a float: truncation toward zero. *)
Definition py_int (x : Q) : Z := Z.quot (Qnum x) (Z.pos (Qden x)).

Definition Qlt_bool (x y : Q) : bool := negb (Qle_bool y x).

(** [str.replace(old, new)] for a non-empty [old]: every non-overlapping
    occurrence, left to right.  [skip] counts the characters of a match
    still to be dropped. *)
Fixpoint replace_from (old new : string) (skip : nat) (s : string) : string :=
  match s with
  | EmptyString => EmptyString
  | String c r =>
      match skip with
      | S k => replace_from old new k r
      | O =>
          if String.prefix old s
          then (new +:+ replace_from old new (String.length old - 1) r)%string
          else String c (replace_from old new O r)
      end
  end.

Definition str_replace (old new s : string) : string := replace_from old new O s.

(** [os.path.join(dir, name)] on a POSIX system, for a relative [name]. *)
Definition path_join (dir name : string) : string := (dir +:+ "/" +:+ name)%string.

(** ** The environment *)

(** Everything the collaborators decide.  The audio stage, the start of
    playback and the final clean-up have one answer per call site.  From
    [start_time = time.time()] (line 143) on, the calls to the clock, the
    frame source, the renderer and the file system are numbered as they
    are made ([tick], the start of the clock being call 0); [fault n] is
    the exception raised by the [n]-th call (if any) and [now n] the
    clock reading it returns when it is a [time.time()]. *)
Record env : Type := Env {
  (* audio stage, lines 25-122 *)
  clip_load : option exn;          (* VideoFileClip(video_path) *)
  clip_has_audio : bool;           (* video_clip.audio is not None *)
  video_name : string;             (* splitext(basename(video_path))[0] *)
  stale_remove : option exn;       (* os.remove of a left-over audio file *)
  mp3_write : option exn;          (* write_audiofile(audio_path, codec='mp3') *)
  mp3_file : option Z;             (* size of the file that call leaves, if any *)
  wav_write : option exn;          (* write_audiofile(wav_audio_path) *)
  wav_file : option Z;
  probe_read : option exn;         (* open(audio_path,'rb').read(1) *)
  clip_close : option exn;         (* video_clip.close() *)
  (* frame source, lines 125-132 *)
  capture_opens : bool;            (* cap.isOpened() after construction *)
  capture_fps : Q;                 (* cap.get(cv2.CAP_PROP_FPS) *)
  capture_frames : list frame;     (* the frames cap.read() will deliver *)
  (* start-up and teardown *)
  play_start : option exn;         (* playsound(audio_path, block=False) *)
  cleanup_remove : option exn;     (* os.remove(audio_path) in the finally *)
  (* clock start and render loop: calls numbered by [tick] *)
  fault : nat -> option exn;
  now : nat -> Q
}.

(** ** The state *)

Record state : Type := State {
  (* locals of video_to_ascii_cli *)
  audio_path : option string;
  video_clip : bool;               (* video_clip is not None *)
  frame_count : Z;
  start_time : Q;
  target_frame_delay : Q;
  (* the world *)
  cap_open : bool;                 (* the capture handle is open *)
  cap_frames : list frame;         (* frames not yet read *)
  fs : gmap string file;           (* existing files *)
  tick : nat;                      (* number of calls made so far *)
  trace : list event               (* log of external actions, oldest first *)
}.

Definition set_audio_path (v : option string) (s : state) : state :=
  State v (video_clip s) (frame_count s) (start_time s) (target_frame_delay s)
        (cap_open s) (cap_frames s) (fs s) (tick s) (trace s).
Definition set_video_clip (v : bool) (s : state) : state :=
  State (audio_path s) v (frame_count s) (start_time s) (target_frame_delay s)
        (cap_open s) (cap_frames s) (fs s) (tick s) (trace s).
Definition set_frame_count (v : Z) (s : state) : state :=
  State (audio_path s) (video_clip s) v (start_time s) (target_frame_delay s)
        (cap_open s) (cap_frames s) (fs s) (tick s) (trace s).
Definition set_start_time (v : Q) (s : state) : state :=
  State (audio_path s) (video_clip s) (frame_count s) v (target_frame_delay s)
        (cap_open s) (cap_frames s) (fs s) (tick s) (trace s).
Definition set_target_frame_delay (v : Q) (s : state) : state :=
  State (audio_path s) (video_clip s) (frame_count s) (start_time s) v
        (cap_open s) (cap_frames s) (fs s) (tick s) (trace s).
Definition set_cap (o : bool) (l : list frame) (s : state) : state :=
  State (audio_path s) (video_clip s) (frame_count s) (start_time s) (target_frame_delay s)
        o l (fs s) (tick s) (trace s).
Definition set_fs (m : gmap string file) (s : state) : state :=
  State (audio_path s) (video_clip s) (frame_count s) (start_time s) (target_frame_delay s)
        (cap_open s) (cap_frames s) m (tick s) (trace s).
Definition set_tick (n : nat) (s : state) : state :=
  State (audio_path s) (video_clip s) (frame_count s) (start_time s) (target_frame_delay s)
        (cap_open s) (cap_frames s) (fs s) n (trace s).
Definition log (e : event) (s : state) : state :=
  State (audio_path s) (video_clip s) (frame_count s) (start_time s) (target_frame_delay s)
        (cap_open s) (cap_frames s) (fs s) (tick s) (trace s ++ [e]).

(** The state a process starts in: nothing assigned yet, no capture,
    the files [files] on disk. *)
Definition initial (files : gmap string file) : state :=
  State None false 0 0%Q 0%Q false [] files O [].

(** ** The monad *)

(** A computation ends normally, raises, or (for the fuelled loop only)
    runs out of fuel. *)
Inductive result (A : Type) : Type :=
| Ok (a : A)
| Raise (e : exn)
| OutOfFuel.
Arguments Ok {A} a.
Arguments Raise {A} e.
Arguments OutOfFuel {A}.

Definition M (A : Type) : Type := state -> result A * state.

Definition ret {A} (a : A) : M A := fun s => (Ok a, s).

Definition bind {A B} (m : M A) (f : A -> M B) : M B :=
  fun s =>
    match m s with
    | (Ok a, s') => f a s'
    | (Raise e, s') => (Raise e, s')
    | (OutOfFuel, s') => (OutOfFuel, s')
    end.

Definition raise {A} (e : exn) : M A := fun s => (Raise e, s).
Definition get : M state := fun s => (Ok s, s).
Definition modify (f : state -> state) : M unit := fun s => (Ok tt, f s).

Notation "'let*' x ':=' m 'in' k" := (bind m (fun x => k))
  (at level 10, x name, m at level 100, k at level 200).
Notation "m '>>' k" := (bind m (fun _ => k))
  (at level 100, k at level 200, right associativity).

(** [try: m  except ...: h]: [h e] is the handler of the first clause
    matching [e], [None] when no clause matches. *)
Definition try_except {A} (m : M A) (h : exn -> option (M A)) : M A :=
  fun s =>
    match m s with
    | (Raise e, s') =>
        match h e with
        | Some k => k s'
        | None => (Raise e, s')
        end
    | r => r
    end.

(** [try: m  finally: f]: [f] runs on every way out of [m]; an exception
    of [f] replaces the outcome of [m]. *)
Definition try_finally {A} (m : M A) (f : M unit) : M A :=
  fun s =>
    match m s with
    | (OutOfFuel, s') => (OutOfFuel, s')
    | (r, s') =>
        match f s' with
        | (Ok _, s'') => (r, s'')
        | (Raise e, s'') => (Raise e, s'')
        | (OutOfFuel, s'') => (OutOfFuel, s'')
        end
    end.

(** [except Exception:] and [except KeyboardInterrupt:] clauses *)
Definition except_Exception {A} (k : M A) (e : exn) : option (M A) :=
  if is_Exception e then Some k else None.

Definition print (msg : string) : M unit := modify (log (EvPrint msg)).

(** ** The program *)

Section Program.

Variable w : env.

(** *** Numbered calls *)

(** Every numbered call takes the next number and may be cut short by
    the exception the environment gives that number. *)
Definition call : M nat :=
  fun s =>
    let n := tick s in
    match fault w n with
    | None => (Ok n, set_tick (S n) s)
    | Some e => (Raise e, set_tick (S n) s)
    end.

(** [time.time()] *)
Definition time_time : M Q := let* n := call in ret (now w n).

(** [cap.isOpened()] *)
Definition cap_isOpened : M bool := let* _ := call in let* s := get in ret (cap_open s).

(** [ret, frame = cap.read()]: [None] stands for [ret == False]. *)
Definition cap_read : M (option frame) :=
  let* _ := call in
  let* s := get in
  match cap_frames s with
  | [] => modify (log (EvRead false)) >> ret None
  | f :: rest =>
      modify (set_cap (cap_open s) rest) >> modify (log (EvRead true)) >> ret (Some f)
  end.

(** [AsciiArt.from_array(frame)] *)
Definition from_array (f : frame) : M ascii_art := let* _ := call in ret (AsciiArt f).

(** [cv2.imwrite(p, frame)] *)
Definition imwrite (p : string) (f : frame) : M unit :=
  let* _ := call in
  let* s := get in
  modify (set_fs (<[p := FrameFile f]> (fs s))) >> modify (log (EvWriteFrame p)).

(** [AsciiArt.from_image(p)]: opens the picture stored at [p]; a missing
    or non-picture file is an [OSError]. *)
Definition from_image (p : string) : M ascii_art :=
  let* _ := call in
  let* s := get in
  match fs s !! p with
  | Some (FrameFile f) => ret (AsciiArt f)
  | _ => raise OtherException
  end.

(** [print('\033[H', end='')] followed by [ascii_image.to_terminal(columns=c)] *)
Definition to_terminal (img : ascii_art) (c : Z) : M unit :=
  let* _ := call in
  match img with AsciiArt f => modify (log (EvDisplay c f)) end.

(** [os.path.exists(p)] *)
Definition path_exists (p : string) : M bool :=
  let* s := get in ret (bool_decide (is_Some (fs s !! p))).

(** The effect of a successful [os.remove(p)]; a missing file is a
    [FileNotFoundError]. *)
Definition unlink (p : string) : M unit :=
  let* s := get in
  match fs s !! p with
  | Some _ => modify (set_fs (delete p (fs s))) >> modify (log (EvRemove p))
  | None => raise OtherException
  end.

(** [os.remove(p)] inside the loop *)
Definition os_remove (p : string) : M unit := let* _ := call in unlink p.

(** [time.sleep(d)] *)
Definition time_sleep (d : Q) : M unit := let* _ := call in modify (log (EvSleep d)).

(** [frame_count += 1] *)
Definition incr_frame_count : M unit :=
  modify (fun s => set_frame_count (frame_count s + 1) s).

(** *** Lines 170-175: the downscaling of wide frames *)

Definition downscale (f : frame) : frame :=
  if 640 <? width f then
    let scale := (640 / inject_Z (width f))%Q in
    let new_width := py_int (inject_Z (width f) * scale) in
    let new_height := py_int (inject_Z (height f) * scale) in
    Frame new_height new_width          (* cv2.resize(frame, (new_width, new_height)) *)
  else f.

Definition temp_dir : string := "Temp".
Definition temp_frame : string := path_join temp_dir "temp_frame.png".

(** *** Lines 168-186: conversion of one frame

    [None] is the [continue] of the [except Exception] clause; otherwise
    the result is [(ascii_image, temp_frame_path)].  The frame has been
    rebound to its downscaled version before [from_array] is called, so
    the fallback of the [except AttributeError] clause writes that one. *)
Definition convert_frame (f : frame) : M (option (ascii_art * option string)) :=
  let frame := downscale f in
  try_except
    (let* ascii_image := from_array frame in
     ret (Some (ascii_image, None)))
    (fun e =>
       match e with
       | AttributeError =>
           Some (imwrite temp_frame frame >>
                 let* ascii_image := from_image temp_frame in
                 ret (Some (ascii_image, Some temp_frame)))
       | OtherException =>
           Some (print "Unexpected error converting frame. Skipping frame." >>
                 incr_frame_count >>
                 ret None)
       | KeyboardInterrupt => None
       end).

(** *** Lines 206-211: the catch-up loop [for _ in range(n)] *)
Fixpoint skip_frames (n : nat) : M unit :=
  match n with
  | O => ret tt
  | S k =>
      let* r := cap_read in
      match r with
      | None => ret tt                       (* break *)
      | Some _ => incr_frame_count >> skip_frames k
      end
  end.

(** [target_next_frame_time - current_time] *)
Definition slack_at (s : state) (current_time : Q) : Q :=
  (start_time s + inject_Z (frame_count s) * target_frame_delay s - current_time)%Q.

(** [int(abs(sleep_time) / target_frame_delay)] *)
Definition backlog (sleep_time delay : Q) : Z := py_int (Qabs sleep_time / delay).

(** *** Lines 196-211: pacing after a displayed frame *)
Definition pace : M unit :=
  let* frame_end := time_time in
  let* s := get in
  let* current_time := time_time in
  let sleep_time := slack_at s current_time in
  if Qlt_bool 0 sleep_time then
    time_sleep sleep_time
  else if Qlt_bool sleep_time (- target_frame_delay s) then
    let frames_to_skip := backlog sleep_time (target_frame_delay s) in
    skip_frames (Z.to_nat (Z.min frames_to_skip 3))
  else ret tt.

(** How an iteration of the [while] ends. *)
Inductive ctl : Type := Next | Break.

(** *** Lines 161-211: the body of the [while] *)
Definition loop_body (columns : Z) : M ctl :=
  let* frame_start := time_time in
  let* r := cap_read in
  match r with
  | None => ret Break
  | Some f =>
      let* c := convert_frame f in
      match c with
      | None => ret Next                       (* continue *)
      | Some (ascii_image, temp_frame_path) =>
          to_terminal ascii_image (Z.min columns 100) >>
          (match temp_frame_path with
           | Some p =>
               let* e := path_exists p in
               if e then os_remove p else ret tt
           | None => ret tt
           end) >>
          incr_frame_count >>
          pace >>
          ret Next
      end
  end.

(** *** Line 160: [while cap.isOpened(): ...], with fuel *)
Fixpoint render_loop (columns : Z) (fuel : nat) : M unit :=
  match fuel with
  | O => fun s => (OutOfFuel, s)
  | S k =>
      let* o := cap_isOpened in
      if o then
        let* c := loop_body columns in
        match c with
        | Next => render_loop columns k
        | Break => ret tt
        end
      else ret tt
  end.

(** *** Lines 25-122: the audio stage *)

(** A call outside the loop, with the exception its call site is given. *)
Definition site (o : option exn) : M unit :=
  match o with
  | None => ret tt
  | Some e => raise e
  end.

(** [video_clip.audio.write_audiofile(p, ...)]: leaves the file the
    environment says (possibly a partial one), then fails or not. *)
Definition write_audiofile (p : string) (left : option Z) (o : option exn) : M unit :=
  (match left with
   | Some n => modify (fun s => set_fs (<[p := AudioFile n]> (fs s)) s)
   | None => ret tt
   end) >>
  site o.

(** Lines 47-79 *)
Definition extract_audio (mp3 : string) : M unit :=
  try_except
    (try_except
       (write_audiofile mp3 (mp3_file w) (mp3_write w) >>
        print "Audio extraction completed successfully")
       (except_Exception
          (print "Primary extraction failed" >>
           try_except
             (let wav_audio_path := str_replace ".mp3" ".wav" mp3 in
              write_audiofile wav_audio_path (wav_file w) (wav_write w) >>
              modify (set_audio_path (Some wav_audio_path)) >>
              print "WAV audio extraction completed successfully")
             (except_Exception
                (print "WAV extraction also failed" >>
                 modify (set_audio_path None))))))
    (except_Exception
       (print "Error during audio extraction" >>
        modify (set_audio_path None))).

(** Lines 81-110 *)
Definition verify_audio : M unit :=
  let* s := get in
  match audio_path s with
  | Some p =>
      match fs s !! p with
      | Some f =>
          let file_size := getsize f in
          if 0 <? file_size then
            try_except
              (site (probe_read w) >> print "Audio file verified and accessible")
              (except_Exception
                 (print "Error accessing audio file" >>
                  modify (set_audio_path None)))
          else
            print "Audio file is empty (0 bytes)" >>
            modify (set_audio_path None)
      | None =>
          print "Error: Audio file was not created" >>
          modify (set_audio_path None)
      end
  | None =>
      print "Error: Audio file was not created" >>
      modify (set_audio_path None)
  end.

(** Lines 23-122 *)
Definition prepare_audio (video_path : string) : M unit :=
  modify (set_audio_path None) >>
  modify (set_video_clip false) >>
  try_finally
    (try_except
       (print "Loading video file" >>
        site (clip_load w) >>
        modify (set_video_clip true) >>
        if clip_has_audio w then
          let mp3 := path_join temp_dir (video_name w +:+ "_audio.mp3")%string in
          modify (set_audio_path (Some mp3)) >>
          (let* e := path_exists mp3 in
           if e then site (stale_remove w) >> unlink mp3 else ret tt) >>
          extract_audio mp3 >>
          verify_audio
        else
          print "No audio track found in the video file.")
       (except_Exception
          (print "Error loading or processing video" >>
           modify (set_audio_path None))))
    (let* s := get in
     if video_clip s then site (clip_close w) >> print "Video clip closed" else ret tt).

(** *** Lines 134-137 *)
Definition frame_delay (fps : Q) : Q :=
  if Qlt_bool 0 fps then (1 / fps)%Q else (1 / 30)%Q.

(** Lines 150-157 *)
Definition start_audio : M unit :=
  let* s := get in
  match audio_path s with
  | Some p =>
      try_except
        (site (play_start w) >>
         modify (log (EvPlay p)) >>
         print "Audio playback initiated.")
        (except_Exception (print "Audio playback error with block=False"))
  | None => ret tt
  end.

(** Lines 219-228: the [finally] of the render loop *)
Definition teardown : M unit :=
  modify (fun s => set_cap false (cap_frames s) s) >>
  modify (log EvRelease) >>
  let* s := get in
  match audio_path s with
  | Some p =>
      let* e := path_exists p in
      if e then
        try_except
          (site (cleanup_remove w) >> unlink p)
          (except_Exception (print "Error cleaning up audio file"))
      else ret tt
  | None => ret tt
  end.

(** Lines 159-228: the [try ... except ... finally] around the loop.
    The loop is given one more iteration than there are frames. *)
Definition playback (columns : Z) : M unit :=
  try_finally
    (try_except
       (let* s := get in render_loop columns (S (length (cap_frames s))))
       (fun e =>
          match e with
          | KeyboardInterrupt => Some (print "Video playback interrupted by user.")
          | _ => Some (print "Error during video playback")
          end))
    teardown.

(** Lines 124-228 *)
Definition play_video (video_path : string) (columns : Z) : M unit :=
  modify (set_cap (capture_opens w) (capture_frames w)) >>
  let* s := get in
  if negb (cap_open s) then
    print ("Error: Could not open video file " +:+ video_path)%string   (* return *)
  else
    let fps := capture_fps w in
    modify (set_target_frame_delay (frame_delay fps)) >>
    modify (set_frame_count 0) >>
    let* t := time_time in
    modify (set_start_time t) >>
    start_audio >>
    playback columns.

(** *** Lines 9-228 *)
Definition video_to_ascii_cli (video_path : string) (columns : Z) : M unit :=
  prepare_audio video_path >>
  play_video video_path columns.

(** The default of the [columns] parameter. *)
Definition default_columns : Z := 80.

(** *** Lines 233-240: [__main__]

    The exit status of the interpreter: [sys.exit(1)] gives 1, a normal
    return 0, an uncaught [Exception] 1 and an uncaught
    [KeyboardInterrupt] 130. *)
Definition exit_status (r : result unit) : option Z :=
  match r with
  | Ok _ => Some 0
  | Raise KeyboardInterrupt => Some 130
  | Raise _ => Some 1
  | OutOfFuel => None
  end.


Definition main (argv : list string) (files : gmap string file) : option Z * state :=
  if negb (length argv =? 2)%nat then
    let s := initial files in
    (Some 1, log (EvPrint "Example: python acvp.py Videos/peak.mp4")
               (log (EvPrint "Usage: python acvp.py <video_path>") s))
  else
    let video_path := nth 1 argv ""%string in
    let (r, s) := video_to_ascii_cli video_path default_columns (initial files) in
    (exit_status r, s).

End Program.

(** * Verification *)

(** ** Observers on the log *)

(** The number of [cap.read()] calls that returned a frame. *)
Fixpoint frames_read (tr : list event) : nat :=
  match tr with
  | [] => O
  | EvRead true :: r => S (frames_read r)
  | _ :: r => frames_read r
  end.

(** What the render loop may do to the outside world when it was called
    with [columns]: it never releases the capture nor starts audio, and
    what it displays is a downscaled frame, at [min(columns, 100)]
    columns. *)
Definition loop_event (columns : Z) (e : event) : Prop :=
  match e with
  | EvDisplay c g => c = Z.min columns 100 /\ exists f, g = downscale f
  | EvRelease | EvPlay _ => False
  | _ => True
  end.

(** [evolves columns s s' evs]: from [s] to [s'] the log grew by [evs],
    every [EvRead true] of [evs] took one frame off the source, and the
    session constants were left alone. *)
Record evolves (columns : Z) (s s' : state) (evs : list event) : Prop := Evolves {
  ev_delay : target_frame_delay s' = target_frame_delay s;
  ev_start : start_time s' = start_time s;
  ev_open : cap_open s' = cap_open s;
  ev_audio : audio_path s' = audio_path s;
  ev_trace : trace s' = trace s ++ evs;
  ev_events : Forall (loop_event columns) evs;
  ev_frames : cap_frames s' = drop (frames_read evs) (cap_frames s);
  ev_avail : (frames_read evs <= length (cap_frames s))%nat;
  ev_tick : (tick s <= tick s')%nat
}.

(** ** Weakest preconditions for [M] *)

Definition wp {A} (m : M A) (s : state) (Q : result A -> state -> Prop) : Prop :=
  Q (fst (m s)) (snd (m s)).

Definition lift_post {A B} (f : A -> M B) (Q : result B -> state -> Prop)
  (r : result A) (s : state) : Prop :=
  match r with
  | Ok a => wp (f a) s Q
  | Raise e => Q (Raise e) s
  | OutOfFuel => Q OutOfFuel s
  end.

(** What one iteration of the [while] guarantees, whatever the
    collaborators do. *)
Definition body_post (s : state) (r : result ctl) (s' : state) (evs : list event) : Prop :=
  match r with
  | Ok Next =>
      frame_count s' = frame_count s + Z.of_nat (frames_read evs) /\
      (0 < frames_read evs)%nat
  | Ok Break =>
      frame_count s' = frame_count s /\ frames_read evs = O /\ cap_frames s' = []
  | Raise _ =>
      frame_count s <= frame_count s' <= frame_count s + Z.of_nat (frames_read evs) /\
      frame_count s + Z.of_nat (frames_read evs) <= frame_count s' + 1
  | OutOfFuel => False
  end.


(** What the whole [while] guarantees from the state [s] it is entered
    in, with [fuel] iterations allowed. *)
Definition loop_post (fuel : nat) (s : state) (r : result unit) (s' : state)
  (evs : list event) : Prop :=
  match r with
  | Ok _ =>
      frame_count s' = frame_count s + Z.of_nat (frames_read evs) /\
      (cap_open s = true -> cap_frames s' = [])
  | Raise _ =>
      frame_count s <= frame_count s' <= frame_count s + Z.of_nat (frames_read evs) /\
      frame_count s + Z.of_nat (frames_read evs) <= frame_count s' + 1
  | OutOfFuel => (fuel <= length (cap_frames s))%nat
  end.

(** [loop_head w columns s s']: the loop entered in [s] is back at its
    head ([while cap.isOpened()]) in [s'] after some complete iterations. *)
Inductive loop_head (w : env) (columns : Z) : state -> state -> Prop :=
| head_here s : loop_head w columns s s
| head_next s s1 s2 s' :
    cap_isOpened w s = (Ok true, s1) ->
    loop_body w columns s1 = (Ok Next, s2) ->
    loop_head w columns s2 s' ->
    loop_head w columns s s'.


(** ** Sample sessions *)

(** A silent 25 fps clip whose calls never fail and whose clock always
    reads [t]. *)
Definition steady (t : Q) (frames : list frame) : env :=
  Env None false "clip" None None None None None None None
      true 25%Q frames None None (fun _ => None) (fun _ => t).

(** The loop state right after frame [n] was displayed and counted, with
    [frames] still in the source; the session started at time 0. *)
Definition after_frame (n : Z) (frames : list frame) : state :=
  State None false n 0%Q (1 / 25)%Q true frames ∅ O [].

Definition vga : frame := Frame 480 640.
Definition hd720 : frame := Frame 720 1280.

(** ** Observers on whole sessions *)

(** What a session called with [columns] may display. *)
Definition session_event (columns : Z) (e : event) : Prop :=
  match e with
  | EvDisplay c g => c = Z.min columns 100 /\ exists f, g = downscale f
  | _ => True
  end.

(** [stable R m]: whatever the state and the outcome, [m] moves the
    state along [R]. *)
Definition stable {A} (R : state -> state -> Prop) (m : M A) : Prop :=
  forall s, R s (snd (m s)).

(** The log only grew, by events satisfying [P]. *)
Definition logs (P : event -> Prop) (s s' : state) : Prop :=
  exists evs, trace s' = trace s ++ evs /\ Forall P evs.

(** The session constants of the pacing engine are the same. *)
Definition same_pacing (s s' : state) : Prop :=
  target_frame_delay s' = target_frame_delay s /\ start_time s' = start_time s.

(** A two-frame clip on which [AsciiArt.from_array] is missing
    ([AttributeError], call 4) and the user presses Ctrl-C while the
    first frame is written to the terminal (call 7).  The calls of the
    session are: 0 [time.time()] (start), 1 [cap.isOpened()],
    2 [time.time()], 3 [cap.read()], 4 [from_array], 5 [imwrite],
    6 [from_image], 7 [to_terminal]. *)
Definition interrupted_in_fallback : env :=
  Env None false "clip" None None None None None None None
      true 25%Q [vga; vga] None None
      (fun n => match n with
                | 4%nat => Some AttributeError
                | 7%nat => Some KeyboardInterrupt
                | _ => None
                end)
      (fun _ => 0%Q).

(** The same clip when the fallback itself fails: [from_array] raises
    [AttributeError] (call 4) and [AsciiArt.from_image] an [OSError]
    (call 6). *)
Definition fallback_fails : env :=
  Env None false "clip" None None None None None None None
      true 25%Q [vga; vga] None None
      (fun n => match n with
                | 4%nat => Some AttributeError
                | 6%nat => Some OtherException
                | _ => None
                end)
      (fun _ => 0%Q).

(** A file that cannot be opened as a video. *)
Definition unreadable_video : env :=
  Env (Some OtherException) false "notes" None None None None None None None
      false 0%Q [] None None (fun _ => None) (fun _ => 0%Q).

(** [calm o]: the call is not interrupted by the user; it succeeds or
    fails with an ordinary [Exception]. *)
Definition calm (o : option exn) : bool :=
  match o with
  | Some KeyboardInterrupt => false
  | _ => true
  end.

(** No Ctrl-C during the audio stage, the start of playback or the
    final clean-up. *)
Definition audio_stage_calm (w : env) : bool :=
  calm (clip_load w) && calm (stale_remove w) && calm (mp3_write w) &&
  calm (wav_write w) && calm (probe_read w) && calm (play_start w) &&
  calm (cleanup_remove w).

(** The audio-stage failures: the clip cannot be loaded, both
    extractions fail, the MP3 extraction leaves no file or an empty one,
    or the extracted file cannot be read. *)
Definition audio_unavailable (w : env) : Prop :=
  clip_load w <> None \/
  (mp3_write w <> None /\ wav_write w <> None) \/
  (mp3_write w = None /\ mp3_file w = None) \/
  (mp3_write w = None /\ exists n, mp3_file w = Some n /\ n <= 0) \/
  probe_read w <> None.

Definition prepare_post (w : env) (s : state) (r : result unit) (s' : state) : Prop :=
  tick s' = tick s /\
  (audio_stage_calm w = true -> clip_close w = None -> r = Ok tt) /\
  (audio_unavailable w -> r = Ok tt -> audio_path s' = None).

(** Anything but the start of audio playback. *)
Definition no_play (e : event) : Prop :=
  match e with
  | EvPlay _ => False
  | _ => True
  end.

(** [teardown] and the audio stage leave the counter and the source alone. *)
Definition same_position (s s' : state) : Prop :=
  frame_count s' = frame_count s /\ cap_frames s' = cap_frames s.

(** A two-frame clip during whose first [to_terminal] (call 5) the user
    presses Ctrl-C. *)
Definition interrupted_in_display : env :=
  Env None false "clip" None None None None None None None
      true 25%Q [vga; vga] None None
      (fun n => match n with
                | 5%nat => Some KeyboardInterrupt
                | _ => None
                end)
      (fun _ => 0%Q).

(** A two-frame clip whose audio can be extracted neither as MP3 nor as
    WAV. *)
Definition extraction_fails : env :=
  Env None true "clip" None (Some OtherException) None (Some OtherException) None
      None None true 25%Q [vga; vga] None None (fun _ => None) (fun _ => 0%Q).

(** The number of [cap.release()] calls. *)
Fixpoint releases (tr : list event) : nat :=
  match tr with
  | [] => O
  | EvRelease :: r => S (releases r)
  | _ :: r => releases r
  end.
(** ** Observers for the further properties *)

(** [finishes m]: [m] never stops for lack of fuel. *)
Definition finishes {A} (m : M A) : Prop := forall s, fst (m s) <> OutOfFuel.

(** What the render loop does to the clock and to the disk: it sleeps
    for positive durations only, and the only file it writes or removes
    is the temporary frame picture. *)
Definition loop_tidy (e : event) : Prop :=
  match e with
  | EvSleep d => (0 < d)%Q
  | EvWriteFrame p | EvRemove p => p = temp_frame
  | _ => True
  end.

(** Every file but the temporary frame picture is as it was. *)
Definition keeps_files (s s' : state) : Prop :=
  forall p, p <> temp_frame -> fs s' !! p = fs s !! p.

Definition tidy (s s' : state) : Prop := logs loop_tidy s s' /\ keeps_files s s'.

(** [time.sleep] is only given positive durations. *)
Definition sleeps_positive (e : event) : Prop :=
  match e with
  | EvSleep d => (0 < d)%Q
  | _ => True
  end.
(** The path the audio track is extracted to (lines 36-37). *)
Definition mp3_path (w : env) : string :=
  path_join temp_dir (video_name w +:+ "_audio.mp3")%string.

(** What the audio stage may log: messages, and the removal of a
    left-over audio file. *)
Definition stage_event (w : env) (e : event) : Prop :=
  match e with
  | EvPrint _ => True
  | EvRemove p => p = mp3_path w
  | _ => False
  end.

(** The MP3 extraction goes through: the clip loads and closes, it has
    an audio track, a left-over file can be removed, and
    [write_audiofile] returns leaving a file of [n] bytes. *)
Definition mp3_extracted (w : env) (n : Z) : Prop :=
  clip_load w = None /\ clip_has_audio w = true /\ stale_remove w = None /\
  mp3_write w = None /\ mp3_file w = Some n /\ clip_close w = None.

(** What the audio stage leaves alone besides logging: the capture
    handle and the numbered calls. *)
Definition stage_only (w : env) (s s' : state) : Prop :=
  logs (stage_event w) s s' /\ cap_open s' = cap_open s /\ tick s' = tick s.

(** A clip with an audio track that extracts to a file of [n] bytes;
    nothing fails and the clock stands still. *)
Definition with_audio (n : Z) (frames : list frame) : env :=
  Env None true "clip" None None (Some n) None None None None
      true 25%Q frames None None (fun _ => None) (fun _ => 0%Q).

(** The same file when OpenCV cannot open it. *)
Definition audio_only (n : Z) : env :=
  Env None true "clip" None None (Some n) None None None None
      false 0%Q [] None None (fun _ => None) (fun _ => 0%Q).

(** The user presses Ctrl-C while the MP3 is being written; [left] is
    the size of the partial file, if one was created. *)
Definition interrupted_in_extraction (left : option Z) : env :=
  Env None true "clip" None (Some KeyboardInterrupt) left None None None None
      true 25%Q [vga] None None (fun _ => None) (fun _ => 0%Q).

(** A two-frame silent clip whose first frame [AsciiArt.from_array]
    rejects with an error other than [AttributeError]; counted from the
    head of the loop, the calls are 0 [cap.isOpened()], 1 [time.time()],
    2 [cap.read()], 3 [from_array]. *)
Definition unconvertible_frame : env :=
  Env None false "clip" None None None None None None None
      true 25%Q [vga; vga] None None
      (fun n => match n with 3%nat => Some OtherException | _ => None end)
      (fun _ => 0%Q).



(** The path of the WAV fallback (line 66). *)
Definition wav_path (w : env) : string := str_replace ".mp3" ".wav" (mp3_path w).

(** The MP3 extraction fails with an ordinary exception and the WAV
    fallback goes through, leaving a readable file of [n] bytes. *)
Definition wav_extracted (w : env) (n : Z) : Prop :=
  clip_load w = None /\ clip_has_audio w = true /\ stale_remove w = None /\
  (exists e, mp3_write w = Some e /\ is_Exception e = true) /\
  wav_write w = None /\ wav_file w = Some n /\ 0 < n /\
  probe_read w = None /\ clip_close w = None.

(** A clip whose MP3 extraction fails after [left] bytes were written
    and whose WAV extraction succeeds. *)
Definition mp3_codec_missing (left : Z) : env :=
  Env None true "clip" None (Some OtherException) (Some left) None (Some 4096)
      None None true 25%Q [vga] None None (fun _ => None) (fun _ => 0%Q).

(** A clip with an audio track when a left-over [Temp/clip_audio.mp3]
    cannot be removed. *)
Definition stale_audio_locked : env :=
  Env None true "clip" (Some OtherException) None (Some 2048) None None None None
      true 25%Q [vga] None None (fun _ => None) (fun _ => 0%Q).


(** ** Arithmetic of the model *)

Lemma Qlt_bool_iff (x y : Q) : Qlt_bool x y = true <-> (x < y)%Q.
Proof.
  unfold Qlt_bool. rewrite negb_true_iff.
  split.
  - intros H. apply Qnot_le_lt. intros Hle.
    apply Qle_bool_iff in Hle. congruence.
  - intros H. destruct (Qle_bool y x) eqn:E; [|reflexivity].
    apply Qle_bool_iff in E. exfalso. exact (Qlt_not_le _ _ H E).
Qed.

Lemma Qlt_bool_false (x y : Q) : Qlt_bool x y = false <-> (y <= x)%Q.
Proof.
  unfold Qlt_bool. rewrite negb_false_iff. apply Qle_bool_iff.
Qed.


Lemma frame_delay_pos (fps : Q) : (0 < frame_delay fps)%Q.
Proof.
  unfold frame_delay. destruct (Qlt_bool 0 fps) eqn:E.
  - apply Qlt_bool_iff in E. unfold Qdiv. rewrite Qmult_1_l.
    apply Qinv_lt_0_compat. exact E.
  - reflexivity.
Qed.

Lemma frames_read_app (a b : list event) :
  frames_read (a ++ b) = (frames_read a + frames_read b)%nat.
Proof.
  induction a as [|e a IH]; simpl; [reflexivity|].
  destruct e as [[]| | | | | | |]; simpl; rewrite IH; reflexivity.
Qed.

Lemma frames_read_replicate (d : nat) :
  frames_read (replicate d (EvRead true)) = d.
Proof. induction d; simpl; congruence. Qed.

(** ** [evolves] is a preorder on runs *)

Lemma evolves_refl columns s : evolves columns s s [].
Proof.
  split; simpl; try reflexivity; try lia.
  - symmetry. apply app_nil_r.
  - constructor.
Qed.

Lemma evolves_trans columns s1 s2 s3 e1 e2 :
  evolves columns s1 s2 e1 -> evolves columns s2 s3 e2 ->
  evolves columns s1 s3 (e1 ++ e2).
Proof.
  intros [A1 A2 A3 A4 A5 A6 A7 A8 A9] [B1 B2 B3 B4 B5 B6 B7 B8 B9].
  split; try congruence.
  - rewrite B5, A5. symmetry. apply app_assoc.
  - apply Forall_app; auto.
  - rewrite B7, A7, frames_read_app, drop_drop. reflexivity.
  - rewrite frames_read_app. rewrite A7, length_drop in B8. lia.
  - lia.
Qed.



Ltac crush_evolves :=
  eapply Evolves; simpl;
  [ reflexivity | reflexivity | reflexivity | reflexivity
  | rewrite <- ?app_assoc; simpl; first [reflexivity | symmetry; apply app_nil_r]
  | repeat constructor; simpl; auto
  | simpl; rewrite ?drop_0; try reflexivity
  | simpl; lia
  | simpl; lia ].

Lemma skip_frames_spec w n s :
  exists (d : nat) (tl : list event),
    (d <= n)%nat /\ (d <= length (cap_frames s))%nat /\
    (tl = [] \/ tl = [EvRead false]) /\
    snd (skip_frames w n s) =
      State (audio_path s) (video_clip s) (frame_count s + Z.of_nat d)
            (start_time s) (target_frame_delay s) (cap_open s)
            (drop d (cap_frames s)) (fs s) (tick (snd (skip_frames w n s)))
            (trace s ++ replicate d (EvRead true) ++ tl) /\
    (tick s <= tick (snd (skip_frames w n s)))%nat /\
    match fst (skip_frames w n s) with
    | Ok _ => d = Nat.min n (length (cap_frames s))
    | Raise _ => True
    | OutOfFuel => False
    end /\
    ((forall k, (tick s <= k)%nat -> fault w k = None) ->
     fst (skip_frames w n s) = Ok tt).
Proof.
  revert s. induction n as [|n IH]; intros s.
  - exists O, []. simpl. rewrite app_nil_r, Z.add_0_r, drop_0.
    destruct s; simpl. repeat split; auto; lia.
  - simpl. unfold bind, cap_read, bind, call.
    destruct (fault w (tick s)) eqn:Ef.
    + exists O, []. simpl. rewrite app_nil_r, Z.add_0_r, drop_0.
      destruct s; simpl in *. repeat split; auto; try lia.
      intros H. rewrite H in Ef; [discriminate|lia].
    + simpl. destruct (cap_frames s) as [|f rest] eqn:Ec; simpl.
      * exists O, [EvRead false]. simpl. rewrite Z.add_0_r.
        destruct s; simpl in *. subst. repeat split; auto; try lia.
      * match goal with |- context [skip_frames w n ?s1] => 
          destruct (IH s1) as (d & tl & H1 & H2 & H3 & H4 & H5 & H6 & H7); set (s2 := s1) in * end.
        exists (S d), tl. simpl in *.
        repeat split; auto; try lia.
        -- rewrite H4 at 1. simpl. f_equal; [lia|].
           rewrite <- app_assoc. reflexivity.
        -- destruct (skip_frames w n s2) as [[|?|] ?]; simpl in *; auto.
        -- intros H. apply H7. intros k Hk. apply H. lia.
Qed.

Lemma skip_frames_evolves w columns n s :
  exists evs,
    evolves columns s (snd (skip_frames w n s)) evs /\
    frame_count (snd (skip_frames w n s)) = frame_count s + Z.of_nat (frames_read evs) /\
    (frames_read evs <= n)%nat /\
    fst (skip_frames w n s) <> OutOfFuel.
Proof.
  destruct (skip_frames_spec w n s) as (d & tl & H1 & H2 & H3 & H4 & H5 & H6 & _).
  exists (replicate d (EvRead true) ++ tl).
  assert (Hr : frames_read (replicate d (EvRead true) ++ tl) = d).
  { rewrite frames_read_app, frames_read_replicate.
    destruct H3 as [-> | ->]; simpl; lia. }
  rewrite Hr. rewrite H4. simpl.
  repeat split; simpl; rewrite ?Hr; auto.
  - apply Forall_app. split.
    + apply Forall_forall. intros e He. apply elem_of_replicate in He as [-> _]. exact I.
    + destruct H3 as [-> | ->]; repeat constructor.
  - intros C. rewrite C in H6. exact H6.
Qed.

Lemma pace_spec w columns s :
  exists evs,
    evolves columns s (snd (pace w s)) evs /\
    frame_count (snd (pace w s)) = frame_count s + Z.of_nat (frames_read evs) /\
    (frames_read evs <= 3)%nat /\
    fst (pace w s) <> OutOfFuel.
Proof.
  destruct s as [ap vc fc st tfd co cf files tk tr].
  unfold pace, time_time, bind, call; simpl.
  destruct (fault w tk) eqn:E0; simpl.
  { eexists; split; [crush_evolves|]. simpl. repeat split; try lia; discriminate. }
  destruct (fault w (S tk)) eqn:E1; simpl.
  { eexists; split; [crush_evolves|]. simpl. repeat split; try lia; discriminate. }
  match goal with |- context [Qlt_bool 0 ?x] => destruct (Qlt_bool 0 x) eqn:Epos end.
  { unfold time_sleep, bind, call; simpl.
    destruct (fault w (S (S tk))) eqn:E2; simpl;
      (eexists; split; [crush_evolves|]; simpl; repeat split; try lia; discriminate). }
  match goal with |- context [Qlt_bool ?x ?y] => destruct (Qlt_bool x y) eqn:Eneg end.
  - match goal with |- context [skip_frames w ?n ?s1] =>
      destruct (skip_frames_evolves w columns n s1) as (evs & H1 & H2 & H3 & H4);
      set (n0 := n) in *; set (s0 := s1) in *
    end.
    exists evs. split; [|repeat split; auto].
    + assert (H0 : evolves columns (State ap vc fc st tfd co cf files tk tr) s0 []) by crush_evolves.
      exact (evolves_trans _ _ _ _ _ _ H0 H1).
    + subst n0. lia.
  - eexists; split; [crush_evolves|]. simpl. repeat split; try lia; discriminate.
Qed.

Lemma wp_intro {A} (m : M A) s (Q : result A -> state -> Prop) :
  (forall r s', m s = (r, s') -> Q r s') -> wp m s Q.
Proof. intros H. unfold wp. apply H. destruct (m s); reflexivity. Qed.

Lemma wp_elim {A} (m : M A) s (Q : result A -> state -> Prop) r s' :
  wp m s Q -> m s = (r, s') -> Q r s'.
Proof. unfold wp. intros H E. rewrite E in H. exact H. Qed.

Lemma wp_bind {A B} (m : M A) (f : A -> M B) s Q :
  wp m s (lift_post f Q) -> wp (bind m f) s Q.
Proof.
  unfold wp, bind, lift_post. destruct (m s) as [[a|e|] s1]; simpl; auto.
Qed.

Lemma wp_ret {A} (a : A) s (Q : result A -> state -> Prop) : Q (Ok a) s -> wp (ret a) s Q.
Proof. exact (fun H => H). Qed.

Lemma wp_raise {A} (e : exn) s (Q : result A -> state -> Prop) :
  Q (Raise e) s -> wp (raise e) s Q.
Proof. exact (fun H => H). Qed.

Lemma wp_get s (Q : result state -> state -> Prop) : Q (Ok s) s -> wp get s Q.
Proof. exact (fun H => H). Qed.

Lemma wp_modify f s (Q : result unit -> state -> Prop) : Q (Ok tt) (f s) -> wp (modify f) s Q.
Proof. exact (fun H => H). Qed.

Lemma wp_call w s (Q : result nat -> state -> Prop) :
  (forall e, fault w (tick s) = Some e -> Q (Raise e) (set_tick (S (tick s)) s)) ->
  (fault w (tick s) = None -> Q (Ok (tick s)) (set_tick (S (tick s)) s)) ->
  wp (call w) s Q.
Proof.
  unfold wp, call. intros H1 H2. destruct (fault w (tick s)); simpl; auto.
Qed.

Lemma wp_site o s (Q : result unit -> state -> Prop) :
  (forall e, o = Some e -> Q (Raise e) s) -> (o = None -> Q (Ok tt) s) ->
  wp (site o) s Q.
Proof. unfold wp, site. intros H1 H2. destruct o; simpl; auto. Qed.

Lemma wp_try_except {A} (m : M A) h s Q :
  wp m s (fun r s1 =>
            match r with
            | Raise e => match h e with Some k => wp k s1 Q | None => Q (Raise e) s1 end
            | _ => Q r s1
            end) ->
  wp (try_except m h) s Q.
Proof.
  unfold wp, try_except. destruct (m s) as [[a|e|] s1]; simpl; auto.
  destruct (h e); auto.
Qed.

Lemma wp_try_finally {A} (m : M A) f s Q :
  wp m s (fun r s1 =>
            match r with
            | OutOfFuel => Q OutOfFuel s1
            | _ => wp f s1 (fun r' s2 =>
                              match r' with
                              | Ok _ => Q r s2
                              | Raise e => Q (Raise e) s2
                              | OutOfFuel => Q OutOfFuel s2
                              end)
            end) ->
  wp (try_finally m f) s Q.
Proof.
  unfold wp, try_finally.
  destruct (m s) as [[a|e|] s1]; simpl; auto;
    destruct (f s1) as [[u|e'|] s2]; simpl; auto.
Qed.

Lemma except_Exception_attribute {A} (k : M A) :
  except_Exception k AttributeError = Some k.
Proof. reflexivity. Qed.

Lemma except_Exception_other {A} (k : M A) :
  except_Exception k OtherException = Some k.
Proof. reflexivity. Qed.

Lemma except_Exception_interrupt {A} (k : M A) :
  except_Exception k KeyboardInterrupt = None.
Proof. reflexivity. Qed.

Ltac wp_simpl :=
  cbv beta iota delta [lift_post set_audio_path set_video_clip set_frame_count
       set_start_time set_target_frame_delay set_cap set_fs set_tick log] in *;
  cbn [audio_path video_clip frame_count start_time target_frame_delay cap_open
       cap_frames fs tick trace fst snd] in *.

Ltac wp_step w :=
  wp_simpl;
  lazymatch goal with
  | |- wp (bind _ _) _ _ => apply wp_bind
  | |- wp (call _) _ _ => apply wp_call; [intros ? ? | intros ?]
  | |- wp (site _) _ _ => apply wp_site; [intros ? ? | intros ?]
  | |- wp (ret _) _ _ => apply wp_ret
  | |- wp (raise _) _ _ => apply wp_raise
  | |- wp get _ _ => apply wp_get
  | |- wp (modify _) _ _ => apply wp_modify
  | |- wp (print _) _ _ => apply wp_modify
  | |- wp (try_except _ _) _ _ => apply wp_try_except
  | |- wp (try_finally _ _) _ _ => apply wp_try_finally
  | |- wp (time_time _) _ _ => unfold time_time
  | |- wp (cap_isOpened _) _ _ => unfold cap_isOpened
  | |- wp (cap_read _) _ _ => unfold cap_read
  | |- wp (from_array _ _) _ _ => unfold from_array
  | |- wp (imwrite _ _ _) _ _ => unfold imwrite
  | |- wp (from_image _ _) _ _ => unfold from_image
  | |- wp (to_terminal _ _ _) _ _ => unfold to_terminal
  | |- wp (path_exists _) _ _ => unfold path_exists
  | |- wp (unlink _) _ _ => unfold unlink
  | |- wp (os_remove _ _) _ _ => unfold os_remove
  | |- wp (time_sleep _ _) _ _ => unfold time_sleep
  | |- wp incr_frame_count _ _ => unfold incr_frame_count
  | |- wp (convert_frame _ _) _ _ => unfold convert_frame
  | |- match match ?e with _ => _ end with _ => _ end => destruct e
  | |- match except_Exception _ ?e with _ => _ end =>
      destruct e;
      [ rewrite except_Exception_attribute
      | rewrite except_Exception_other
      | rewrite except_Exception_interrupt ]
  | |- context [<[?k:=_]> _ !! ?k] => rewrite lookup_insert_eq
  | |- context [delete ?k _ !! ?k] => rewrite lookup_delete_eq
  | |- wp (match ?x with _ => _ end) _ _ => destruct x eqn:?
  | |- wp (if ?x then _ else _) _ _ => destruct x eqn:?
  end.
Lemma after_pace w columns s0 s1 evs1 :
  evolves columns s0 s1 evs1 ->
  frames_read evs1 = 1%nat ->
  frame_count s1 = frame_count s0 + 1 ->
  wp (pace w) s1
     (lift_post (fun _ => ret Next)
        (fun r s' => exists evs, evolves columns s0 s' evs /\ body_post s0 r s' evs)).
Proof.
  intros H0 Hr Hc. apply wp_intro. intros r s' E.
  destruct (pace_spec w columns s1) as (evs & H1 & H2 & H3 & H4).
  rewrite E in H1, H2, H4. simpl in H1, H2, H4.
  pose proof (evolves_trans _ _ _ _ _ _ H0 H1) as Ht.
  destruct r as [[]|e|]; simpl; [| |congruence];
    (exists (evs1 ++ evs); split; [exact Ht|]);
    simpl; rewrite frames_read_app; lia.
Qed.

Ltac leaf :=
  eexists; split;
  [ crush_evolves; eauto
  | simpl; auto; try lia ].

Lemma loop_body_wp w columns s :
  wp (loop_body w columns) s
     (fun r s' => exists evs, evolves columns s s' evs /\ body_post s r s' evs).
Proof.
  destruct s as [ap vc fc st tfd co cf files tk tr].
  unfold loop_body.
  repeat wp_step w; wp_simpl;
    lazymatch goal with
    | |- wp (pace _) _ _ => idtac
    | |- _ => leaf
    end.
  all: eapply after_pace; [crush_evolves; eauto | reflexivity | reflexivity].
Qed.

Lemma loop_body_spec w columns s r s' :
  loop_body w columns s = (r, s') ->
  exists evs, evolves columns s s' evs /\ body_post s r s' evs.
Proof. intros E. exact (wp_elim _ _ _ _ _ (loop_body_wp w columns s) E). Qed.

Lemma render_loop_spec w columns fuel s r s' :
  render_loop w columns fuel s = (r, s') ->
  exists evs, evolves columns s s' evs /\ loop_post fuel s r s' evs.
Proof.
  revert s r s'. induction fuel as [|fuel IH]; intros s r s' E.
  - simpl in E. injection E as <- <-. exists []. split; [apply evolves_refl|].
    simpl. lia.
  - simpl in E. unfold bind at 1 in E.
    destruct (cap_isOpened w s) as [ro s1] eqn:Eo.
    assert (Ho : evolves columns s s1 [] /\ frame_count s1 = frame_count s /\
                 match ro with Ok o => o = cap_open s | Raise _ => True | OutOfFuel => False end).
    { revert Eo. unfold cap_isOpened, bind, call, get, ret.
      destruct s; simpl. destruct (fault w _); simpl;
        intros [= <- <-]; (split; [crush_evolves|]); simpl; auto. }
    destruct Ho as (H0 & Hc0 & Hro).
    destruct ro as [o|e|]; [|injection E as <- <-|contradiction].
    2:{ exists []. split; [exact H0|]. simpl. lia. }
    subst o. destruct (cap_open s) eqn:Hopen.
    + unfold bind in E. destruct (loop_body w columns s1) as [rb s2] eqn:Eb.
      destruct (loop_body_spec _ _ _ _ _ Eb) as (evs1 & H1 & Hb).
      pose proof (evolves_trans _ _ _ _ _ _ H0 H1) as H01. simpl in H01.
      destruct rb as [[]|e|]; simpl in Hb.
      * destruct (IH _ _ _ E) as (evs2 & H2 & Hl).
        exists (evs1 ++ evs2). split; [exact (evolves_trans _ _ _ _ _ _ H01 H2)|].
        destruct Hb as [Hb1 Hb2].
        assert (Hopen2 : cap_open s2 = true).
        { rewrite (ev_open _ _ _ _ H01). exact Hopen. }
        destruct r as [u|e|]; simpl in *; rewrite ?frames_read_app; try lia.
        -- split; [lia|]. intros _. apply Hl. exact Hopen2.
        -- pose proof (ev_frames _ _ _ _ H01) as Hf.
           pose proof (ev_avail _ _ _ _ H01) as Ha.
           rewrite Hf, length_drop in Hl. lia.
      * injection E as <- <-. exists evs1. split; [exact H01|].
        simpl. destruct Hb as (Hb1 & Hb2 & Hb3). rewrite Hb2. split; [lia|auto].
      * injection E as <- <-. exists evs1. split; [exact H01|]. simpl. lia.
      * contradiction.
    + injection E as <- <-. exists []. split; [exact H0|].
      simpl. split; [lia|congruence].
Qed.

(** Enough fuel: with more iterations allowed than frames are left, the
    loop ends by itself. *)
Lemma render_loop_terminates w columns fuel s :
  (length (cap_frames s) < fuel)%nat ->
  fst (render_loop w columns fuel s) <> OutOfFuel.
Proof.
  intros Hlt C.
  destruct (render_loop w columns fuel s) as [r s'] eqn:E. simpl in C. subst r.
  destruct (render_loop_spec _ _ _ _ _ _ E) as (evs & _ & Hl). simpl in Hl. lia.
Qed.

Lemma loop_head_spec w columns s s' :
  loop_head w columns s s' ->
  exists evs,
    evolves columns s s' evs /\
    frame_count s' = frame_count s + Z.of_nat (frames_read evs).
Proof.
  induction 1 as [s | s s1 s2 s' Ho Hb _ (evs2 & H2 & Hc2)].
  - exists []. split; [apply evolves_refl|]. simpl. lia.
  - assert (H0 : evolves columns s s1 [] /\ frame_count s1 = frame_count s).
    { revert Ho. unfold cap_isOpened, bind, call, get, ret.
      destruct s; simpl. destruct (fault w _); simpl; [discriminate|].
      intros [= _ <-]. split; [crush_evolves|reflexivity]. }
    destruct H0 as [H0 Hc0].
    destruct (loop_body_spec _ _ _ _ _ Hb) as (evs1 & H1 & Hb1 & _).
    exists (([] ++ evs1) ++ evs2). split.
    + exact (evolves_trans _ _ _ _ _ _ (evolves_trans _ _ _ _ _ _ H0 H1) H2).
    + simpl. rewrite frames_read_app. lia.
Qed.

(** ** The pacing step, exactly *)

(** With both clock readings obtained, [pace] is one of three actions on
    the state [set_tick (2 + tick s) s]. *)
Lemma pace_eq w s :
  fault w (tick s) = None ->
  fault w (S (tick s)) = None ->
  pace w s =
    let s2 := set_tick (S (S (tick s))) s in
    let sleep_time := slack_at s (now w (S (tick s))) in
    if Qlt_bool 0 sleep_time then time_sleep w sleep_time s2
    else if Qlt_bool sleep_time (- target_frame_delay s) then
      skip_frames w (Z.to_nat (Z.min (backlog sleep_time (target_frame_delay s)) 3)) s2
    else (Ok tt, s2).
Proof.
  intros H0 H1. destruct s as [ap vc fc st tfd co cf files tk tr]. simpl in *.
  unfold pace, time_time, bind, call, get, ret. simpl.
  rewrite H0. simpl. rewrite H1. simpl.
  unfold slack_at. simpl.
  destruct (Qlt_bool 0 _); [reflexivity|].
  destruct (Qlt_bool _ (- tfd)); reflexivity.
Qed.



(** ** C1: bounded catch-up *)



(** A backlog of 249 frames triggers 3 skips; a backlog of 2 triggers 2;
    a source with one frame left gives up after that one. *)
Example catch_up_ten_seconds_behind :
  let r := pace (steady 10 []) (after_frame 1 [vga; vga; vga; vga; vga]) in
  fst r = Ok tt /\ frame_count (snd r) = 4 /\ cap_frames (snd r) = [vga; vga] /\
  trace (snd r) = [EvRead true; EvRead true; EvRead true].
Proof. vm_compute. repeat split. Qed.

Example catch_up_two_frames_behind :
  let r := pace (steady (7 / 50) []) (after_frame 1 [vga; vga; vga; vga; vga]) in
  fst r = Ok tt /\ frame_count (snd r) = 3 /\ cap_frames (snd r) = [vga; vga; vga].
Proof. vm_compute. repeat split. Qed.

Example catch_up_source_exhausted :
  let r := pace (steady 10 []) (after_frame 1 [vga]) in
  fst r = Ok tt /\ frame_count (snd r) = 2 /\ cap_frames (snd r) = [] /\
  trace (snd r) = [EvRead true; EvRead false].
Proof. vm_compute. repeat split. Qed.

(** ** C3: sleeping until the target instant *)



(** ** Relations every step of a computation respects *)

Section Stable.

Variable R : state -> state -> Prop.
Hypothesis R_refl : forall s, R s s.
Hypothesis R_trans : forall a b c, R a b -> R b c -> R a c.

Lemma st_ret {A} (a : A) : stable R (ret a).
Proof. intros s. apply R_refl. Qed.

Lemma st_raise {A} (e : exn) : stable R (@raise A e).
Proof. intros s. apply R_refl. Qed.

Lemma st_get : stable R get.
Proof. intros s. apply R_refl. Qed.

Lemma st_site o : stable R (site o).
Proof. destruct o; [apply st_raise | apply st_ret]. Qed.

Lemma st_modify (f : state -> state) : (forall s, R s (f s)) -> stable R (modify f).
Proof. intros H s. apply H. Qed.

Lemma st_call w : (forall s n, R s (set_tick n s)) -> stable R (call w).
Proof. intros H s. unfold call. destruct (fault w (tick s)); apply H. Qed.

Lemma st_bind {A B} (m : M A) (f : A -> M B) :
  stable R m -> (forall a, stable R (f a)) -> stable R (bind m f).
Proof.
  intros Hm Hf s. unfold bind. pose proof (Hm s) as H1.
  destruct (m s) as [[a|e|] s1]; simpl in *; auto.
  exact (R_trans _ _ _ H1 (Hf a s1)).
Qed.

Lemma st_try_except {A} (m : M A) h :
  stable R m -> (forall e k, h e = Some k -> stable R k) ->
  stable R (try_except m h).
Proof.
  intros Hm Hh s. unfold try_except. pose proof (Hm s) as H1.
  destruct (m s) as [[a|e|] s1]; simpl in *; auto.
  destruct (h e) as [k|] eqn:Ek; simpl; auto.
  exact (R_trans _ _ _ H1 (Hh e k Ek s1)).
Qed.

Lemma st_except_Exception {A} (k : M A) e k' :
  stable R k -> except_Exception k e = Some k' -> stable R k'.
Proof.
  unfold except_Exception. destruct (is_Exception e); [|discriminate].
  intros H [= <-]. exact H.
Qed.

Lemma st_try_finally {A} (m : M A) f :
  stable R m -> stable R f -> stable R (try_finally m f).
Proof.
  intros Hm Hf s. unfold try_finally. pose proof (Hm s) as H1.
  destruct (m s) as [[a|e|] s1]; simpl in *; auto;
    pose proof (Hf s1) as H2;
    destruct (f s1) as [[u|e'|] s2]; simpl in *;
    exact (R_trans _ _ _ H1 H2).
Qed.

End Stable.

Lemma logs_refl P s : logs P s s.
Proof. exists []. rewrite app_nil_r. auto. Qed.

Lemma logs_trans P a b c : logs P a b -> logs P b c -> logs P a c.
Proof.
  intros (e1 & H1 & F1) (e2 & H2 & F2). exists (e1 ++ e2).
  rewrite H2, H1, <- app_assoc. split; [reflexivity|]. apply Forall_app; auto.
Qed.

Lemma logs_keep P s s' : trace s' = trace s -> logs P s s'.
Proof. intros H. exists []. rewrite app_nil_r. auto. Qed.

Lemma logs_one P e s : P e -> logs P s (log e s).
Proof. intros H. exists [e]. simpl. auto. Qed.

Lemma same_pacing_refl s : same_pacing s s.
Proof. split; reflexivity. Qed.

Lemma same_pacing_trans a b c : same_pacing a b -> same_pacing b c -> same_pacing a c.
Proof. intros [A1 A2] [B1 B2]. split; congruence. Qed.

Lemma render_loop_logs w columns fuel :
  stable (logs (session_event columns)) (render_loop w columns fuel).
Proof.
  intros s. destruct (render_loop w columns fuel s) as [r s'] eqn:E.
  destruct (render_loop_spec _ _ _ _ _ _ E) as (evs & H & _).
  exists evs. split; [exact (ev_trace _ _ _ _ H)|].
  eapply Forall_impl; [exact (ev_events _ _ _ _ H)|].
  intros [] He; simpl in *; auto; contradiction.
Qed.

Lemma render_loop_same_pacing w columns fuel :
  stable same_pacing (render_loop w columns fuel).
Proof.
  intros s. destruct (render_loop w columns fuel s) as [r s'] eqn:E.
  destruct (render_loop_spec _ _ _ _ _ _ E) as (evs & H & _).
  split; [exact (ev_delay _ _ _ _ H) | exact (ev_start _ _ _ _ H)].
Qed.

(** One compositional step; [side] closes the conditions on state updates. *)
Ltac st_step side :=
  first
    [ apply st_ret; side | apply st_raise; side | apply st_get; side
    | apply st_site; side
    | apply st_call; side
    | apply render_loop_logs
    | apply render_loop_same_pacing
    | apply st_modify; side
    | apply st_bind; [side | | intros ?]
    | apply st_try_finally; [side | | ]
    | apply st_try_except; [side | | intros ? ? ?Hh]
    | match goal with
      | H : except_Exception _ _ = Some _ |- _ =>
          eapply st_except_Exception; [|exact H]
      | H : match ?e with _ => _ end = Some _ |- _ =>
          destruct e; try discriminate; injection H as <-
      | |- stable _ (match ?x with _ => _ end) => destruct x
      | |- stable _ (if ?x then _ else _) => destruct x
      end ].

Ltac logs_side :=
  first
    [ exact (logs_refl _)
    | exact (logs_trans _)
    | intros; apply logs_one; exact I
    | intros; apply logs_keep; reflexivity ].

Ltac pacing_side :=
  first
    [ exact same_pacing_refl
    | exact same_pacing_trans
    | intros; split; reflexivity ].

Ltac unfold_session :=
  unfold video_to_ascii_cli, prepare_audio, extract_audio, verify_audio,
    write_audiofile, play_video, start_audio, playback, teardown, path_exists,
    unlink, time_time, print.


Lemma playback_same_pacing w columns : stable same_pacing (playback w columns).
Proof. unfold_session. repeat st_step pacing_side. Qed.

Lemma start_audio_same_pacing w : stable same_pacing (start_audio w).
Proof. unfold_session. repeat st_step pacing_side. Qed.

(** ** C10: downscaling of wide frames *)



Example downscale_hd720 : downscale hd720 = Frame 360 640.
Proof. reflexivity. Qed.

(** ** C9: command line and display width *)



(** A second argument, for instance a column width, is a usage error. *)
Example main_rejects_column_argument :
  fst (main (steady 0 [vga]) ["acvp.py"; "clip.mp4"; "120"]%string ∅) = Some 1.
Proof. reflexivity. Qed.

Ltac wp_step2 w :=
  first
  [ wp_step w
  | lazymatch goal with
    | |- wp (start_audio _) _ _ => unfold start_audio
    | |- wp (teardown _) _ _ => unfold teardown
    | |- wp (write_audiofile _ _ _) _ _ => unfold write_audiofile
    | |- wp (extract_audio _ _) _ _ => unfold extract_audio
    | |- wp (verify_audio _) _ _ => unfold verify_audio
    | |- wp (prepare_audio _ _) _ _ => unfold prepare_audio
    | |- wp (play_video _ _ _) _ _ => unfold play_video
    end ].

(** ** The audio stage *)

Ltac calm_leaf :=
  let Hc := fresh "Hc" in
  let Hcl := fresh "Hcl" in
  intros Hc Hcl; try reflexivity; exfalso;
  unfold audio_stage_calm in Hc;
  repeat (let H := fresh in apply andb_prop in Hc as [Hc H]);
  try congruence;
  repeat match goal with
         | H : ?o = Some KeyboardInterrupt, H' : calm ?o = true |- _ =>
             rewrite H in H'; discriminate H'
         | H : bool_decide (is_Some None) = true |- _ =>
             apply bool_decide_eq_true in H; destruct H as [? H]; discriminate H
         end.

Ltac unavailable_leaf w :=
  let Hu := fresh "Hu" in
  intros Hu ?; try reflexivity; try discriminate; exfalso;
  destruct Hu as [Hu|[[Hu ?]|[[Hu ?]|[[Hu (? & ? & ?)]|Hu]]]];
  try congruence;
  repeat match goal with
         | H : bool_decide _ = false |- _ => apply bool_decide_eq_false in H
         | H : ?x = Some _, H' : ~ is_Some ?x |- _ => destruct H'; eauto
         | H : mp3_file w = Some ?a, H' : mp3_file w = Some ?b |- _ =>
             rewrite H in H'; injection H' as ->
         | H : (0 <? _) = true |- _ => apply Z.ltb_lt in H
         | H : _ = Some (AudioFile _) |- _ => injection H as <-
         end;
  simpl in *; try lia; try congruence.

Lemma prepare_audio_wp w path s : wp (prepare_audio w path) s (prepare_post w s).
Proof.
  destruct s as [ap vc fc st tfd co cf files tk tr].
  repeat wp_step2 w; wp_simpl.
  all: split; [reflexivity|split]; [calm_leaf | unavailable_leaf w].
Qed.

(** ** Runs in which no call of the loop fails *)

Lemma pace_fault_free w s :
  (forall n, fault w n = None) -> fst (pace w s) = Ok tt.
Proof.
  intros Hnf. rewrite (pace_eq w s (Hnf _) (Hnf _)). cbv zeta.
  destruct (Qlt_bool 0 _).
  - unfold time_sleep, bind, call, modify. simpl. rewrite Hnf. reflexivity.
  - destruct (Qlt_bool _ _); [|reflexivity].
    match goal with |- context [skip_frames w ?n ?s1] =>
      destruct (skip_frames_spec w n s1) as (d & tl & _ & _ & _ & _ & _ & _ & H)
    end.
    apply H. intros k _. apply Hnf.
Qed.

Ltac no_fault Hnf :=
  match goal with
  | H : fault _ _ = Some _ |- _ => rewrite Hnf in H; discriminate H
  end.

Lemma loop_body_fault_free w columns s :
  (forall n, fault w n = None) ->
  wp (loop_body w columns) s (fun r _ => exists c, r = Ok c).
Proof.
  intros Hnf. destruct s as [ap vc fc st tfd co cf files tk tr].
  unfold loop_body.
  repeat wp_step w; wp_simpl; try no_fault Hnf; eauto.
  all: apply wp_intro; intros r s' E;
    match type of E with pace ?w0 ?s1 = _ =>
      pose proof (pace_fault_free w0 s1 Hnf) as Hp
    end;
    rewrite E in Hp; simpl in Hp; subst r; simpl; unfold wp; simpl; eauto.
Qed.

Lemma render_loop_fault_free w columns fuel s e :
  (forall n, fault w n = None) ->
  fst (render_loop w columns fuel s) <> Raise e.
Proof.
  intros Hnf. revert s. induction fuel as [|fuel IH]; intros s; [discriminate|].
  simpl. unfold bind at 1, cap_isOpened, bind at 1, call. rewrite Hnf. simpl.
  destruct (cap_open s); [|discriminate].
  unfold bind.
  pose proof (loop_body_fault_free w columns (set_tick (S (tick s)) s) Hnf) as Hb.
  unfold wp in Hb. destruct (loop_body w columns _) as [rb s2].
  destruct Hb as [c Hc]. simpl in Hc. subst rb.
  destruct c; [apply IH | discriminate].
Qed.

(** ** Start of playback and teardown *)

Ltac ok_leaf :=
  first
    [ reflexivity
    | exfalso;
      repeat match goal with
             | H : ?o = Some KeyboardInterrupt, H' : calm ?o = true |- _ =>
                 rewrite H in H'; discriminate H'
             | H : bool_decide (is_Some None) = true |- _ =>
                 apply bool_decide_eq_true in H; destruct H as [? H]; discriminate H
             end ].

Lemma teardown_ok w s :
  calm (cleanup_remove w) = true -> fst (teardown w s) = Ok tt.
Proof.
  intros Hc. change (wp (teardown w) s (fun r _ => r = Ok tt)).
  destruct s as [ap vc fc st tfd co cf files tk tr].
  repeat wp_step2 w; wp_simpl; ok_leaf.
Qed.

Lemma playback_ok w columns s :
  calm (cleanup_remove w) = true -> fst (playback w columns s) = Ok tt.
Proof.
  intros Hc. unfold playback, try_finally, try_except, bind, get.
  pose proof (render_loop_terminates w columns (S (length (cap_frames s))) s
                (Nat.lt_succ_diag_r _)) as Hf.
  destruct (render_loop w columns _ s) as [[u|e|] s1]; simpl in *;
    [| |congruence].
  - pose proof (teardown_ok w s1 Hc) as Ht.
    destruct (teardown w s1) as [rt s2]. simpl in Ht. subst rt. destruct u. reflexivity.
  - destruct e; unfold print, modify;
      match goal with |- context [teardown w ?s2] =>
        pose proof (teardown_ok w s2 Hc) as Ht;
        destruct (teardown w s2) as [rt s3]; simpl in Ht; subst rt; reflexivity
      end.
Qed.

Lemma start_audio_wp w s :
  wp (start_audio w) s
     (fun r s' =>
        (calm (play_start w) = true -> r = Ok tt) /\
        tick s' = tick s /\ audio_path s' = audio_path s /\
        frame_count s' = frame_count s /\ cap_open s' = cap_open s /\
        cap_frames s' = cap_frames s /\
        logs (fun e => match e with EvPrint _ | EvPlay _ => True | _ => False end) s s' /\
        (audio_path s = None \/ play_start w <> None ->
         logs (fun e => match e with EvPrint _ => True | _ => False end) s s')).
Proof.
  destruct s as [ap vc fc st tfd co cf files tk tr].
  repeat wp_step2 w; wp_simpl.
  all: split; [intros; ok_leaf|].
  all: repeat (split; [reflexivity|]).
  all: split;
    [ eexists; split;
      [ rewrite <- ?app_assoc; simpl; first [reflexivity | symmetry; apply app_nil_r]
      | repeat constructor ]
    | intros [Hn|Hn];
      first
        [ discriminate | congruence
        | eexists; split;
          [ rewrite <- ?app_assoc; simpl; first [reflexivity | symmetry; apply app_nil_r]
          | repeat constructor ] ] ].
Qed.

Lemma play_video_ok w path columns s :
  calm (play_start w) = true -> calm (cleanup_remove w) = true ->
  fault w (tick s) = None ->
  fst (play_video w path columns s) = Ok tt.
Proof.
  intros Hp Hc Hf. change (wp (play_video w path columns) s (fun r _ => r = Ok tt)).
  destruct s as [ap vc fc st tfd co cf files tk tr].
  unfold play_video.
  repeat wp_step w; wp_simpl; try reflexivity; try congruence.
  apply wp_intro. intros r s1 E.
  destruct (wp_elim _ _ _ _ _ (start_audio_wp w _) E) as (Hr & _).
  rewrite (Hr Hp). wp_simpl. unfold wp. apply playback_ok. exact Hc.
Qed.

Lemma wp_stable {A} (R : state -> state -> Prop) (m : M A) s
    (Q : result A -> state -> Prop) :
  stable R m -> (forall r s', R s s' -> Q r s') -> wp m s Q.
Proof. intros H HQ. unfold wp. apply HQ. apply H. Qed.

Lemma render_loop_no_play w columns fuel :
  stable (logs no_play) (render_loop w columns fuel).
Proof.
  intros s. destruct (render_loop w columns fuel s) as [r s'] eqn:E.
  destruct (render_loop_spec _ _ _ _ _ _ E) as (evs & H & _).
  exists evs. split; [exact (ev_trace _ _ _ _ H)|].
  eapply Forall_impl; [exact (ev_events _ _ _ _ H)|].
  intros [] He; simpl in *; auto.
Qed.

Lemma playback_no_play w columns : stable (logs no_play) (playback w columns).
Proof.
  unfold_session.
  repeat first [apply render_loop_no_play | st_step logs_side].
Qed.

Lemma prepare_audio_no_play w path : stable (logs no_play) (prepare_audio w path).
Proof. unfold_session. repeat st_step logs_side. Qed.

Lemma same_position_refl s : same_position s s.
Proof. split; reflexivity. Qed.

Lemma same_position_trans a b c :
  same_position a b -> same_position b c -> same_position a c.
Proof. intros [A1 A2] [B1 B2]. split; congruence. Qed.

Ltac position_side :=
  first
    [ exact same_position_refl
    | exact same_position_trans
    | intros; split; reflexivity ].

Lemma teardown_same_position w : stable same_position (teardown w).
Proof. unfold_session. repeat st_step position_side. Qed.

(** ** The session as a whole *)

Lemma play_video_delay w path columns s :
  capture_opens w = true ->
  target_frame_delay (snd (play_video w path columns s)) = frame_delay (capture_fps w).
Proof.
  intros Ho.
  change (wp (play_video w path columns) s
            (fun _ s' => target_frame_delay s' = frame_delay (capture_fps w))).
  destruct s as [ap vc fc st tfd co cf files tk tr].
  unfold play_video.
  repeat wp_step w; wp_simpl; try reflexivity;
    try (rewrite Ho in *; discriminate).
  apply (wp_stable same_pacing); [apply start_audio_same_pacing|].
  intros r s1 [H1 _]. destruct r; wp_simpl; auto.
  apply (wp_stable same_pacing); [apply playback_same_pacing|].
  intros r s2 [H2 _]. simpl in *. congruence.
Qed.

Lemma session_ok w path columns files :
  audio_stage_calm w = true -> clip_close w = None -> fault w O = None ->
  fst (video_to_ascii_cli w path columns (initial files)) = Ok tt.
Proof.
  intros Hc Hcl Hf. unfold video_to_ascii_cli, bind.
  destruct (prepare_audio w path (initial files)) as [r1 s1] eqn:E1.
  destruct (wp_elim _ _ _ _ _ (prepare_audio_wp w path _) E1) as (Ht & Hok & _).
  rewrite (Hok Hc Hcl).
  unfold audio_stage_calm in Hc.
  repeat (let H := fresh in apply andb_prop in Hc as [Hc H]).
  apply play_video_ok; auto. rewrite Ht. exact Hf.
Qed.

Lemma playback_completes w columns s :
  cap_open s = true -> (forall n, fault w n = None) ->
  cap_frames (snd (playback w columns s)) = [] /\
  frame_count (snd (playback w columns s))
    = frame_count s + Z.of_nat (length (cap_frames s)).
Proof.
  intros Ho Hnf. unfold playback, try_finally, try_except, bind, get.
  pose proof (render_loop_terminates w columns (S (length (cap_frames s))) s
                (Nat.lt_succ_diag_r _)) as Hf.
  destruct (render_loop w columns _ s) as [r s1] eqn:E.
  pose proof (render_loop_fault_free w columns (S (length (cap_frames s))) s) as Hr.
  rewrite E in Hr. simpl in Hf, Hr.
  destruct (render_loop_spec _ _ _ _ _ _ E) as (evs & Hev & Hpost).
  destruct r as [u|e|]; [|exfalso; exact (Hr e Hnf eq_refl)|congruence].
  simpl in Hpost. destruct Hpost as [Hc Hl]. specialize (Hl Ho).
  pose proof (teardown_same_position w s1) as [T1 T2].
  assert (Hn : frames_read evs = length (cap_frames s)).
  { pose proof (ev_frames _ _ _ _ Hev) as Hd. pose proof (ev_avail _ _ _ _ Hev) as Ha.
    rewrite Hl in Hd. symmetry in Hd. apply (f_equal length) in Hd.
    rewrite length_drop in Hd. simpl in Hd. lia. }
  destruct (teardown w s1) as [[|e|] s2]; simpl in *; split; congruence.
Qed.

Lemma play_video_completes w path columns s :
  capture_opens w = true -> calm (play_start w) = true ->
  (forall n, fault w n = None) ->
  cap_frames (snd (play_video w path columns s)) = [] /\
  frame_count (snd (play_video w path columns s))
    = Z.of_nat (length (capture_frames w)).
Proof.
  intros Ho Hp Hnf.
  change (wp (play_video w path columns) s
            (fun _ s' => cap_frames s' = [] /\
                         frame_count s' = Z.of_nat (length (capture_frames w)))).
  destruct s as [ap vc fc st tfd co cf files tk tr].
  unfold play_video.
  repeat wp_step w; wp_simpl; try no_fault Hnf;
    try (rewrite Ho in *; discriminate).
  apply wp_intro. intros r s1 E.
  destruct (wp_elim _ _ _ _ _ (start_audio_wp w _) E)
    as (Hr & _ & _ & Hc & Hop & Hfr & _). simpl in *.
  rewrite (Hr Hp). wp_simpl. unfold wp.
  destruct (playback_completes w columns s1) as [P1 P2]; [congruence|exact Hnf|].
  rewrite P1, P2, Hc, Hfr. split; [reflexivity|lia].
Qed.

Lemma play_video_no_play w path columns s :
  audio_path s = None \/ play_start w <> None ->
  logs no_play s (snd (play_video w path columns s)).
Proof.
  intros Hq.
  change (wp (play_video w path columns) s (fun _ s' => logs no_play s s')).
  destruct s as [ap vc fc st tfd co cf files tk tr].
  unfold play_video.
  repeat wp_step w; wp_simpl;
    try (eexists; split;
         [ simpl; rewrite <- ?app_assoc; simpl;
           first [reflexivity | symmetry; apply app_nil_r]
         | repeat constructor ]; fail).
  apply wp_intro. intros r s1 E.
  destruct (wp_elim _ _ _ _ _ (start_audio_wp w _) E)
    as (_ & _ & _ & _ & _ & _ & _ & Hl). simpl in *.
  specialize (Hl Hq).
  assert (Hl' : logs no_play (State ap vc fc st tfd co cf files tk tr) s1).
  { destruct Hl as (evs & Ht & Hall). exists evs. split; [exact Ht|].
    eapply Forall_impl; [exact Hall|]. intros []; simpl; auto. }
  destruct r; wp_simpl; auto.
  unfold wp. eapply logs_trans; [exact Hl'|]. apply playback_no_play.
Qed.

Lemma session_no_play w path columns files p :
  audio_stage_calm w = true -> clip_close w = None ->
  audio_unavailable w \/ play_start w <> None ->
  ~ In (EvPlay p) (trace (snd (video_to_ascii_cli w path columns (initial files)))).
Proof.
  intros Hc Hcl Hq.
  assert (Hl : logs no_play (initial files)
                 (snd (video_to_ascii_cli w path columns (initial files)))).
  { unfold video_to_ascii_cli, bind.
    pose proof (prepare_audio_no_play w path (initial files)) as H1.
    destruct (prepare_audio w path (initial files)) as [r1 s1] eqn:E1.
    destruct (wp_elim _ _ _ _ _ (prepare_audio_wp w path _) E1) as (_ & Hok & Hun).
    rewrite (Hok Hc Hcl) in *. simpl in H1.
    eapply logs_trans; [exact H1|]. apply play_video_no_play.
    destruct Hq as [Hq|Hq]; [left; apply Hun; auto | right; exact Hq]. }
  destruct Hl as (evs & Ht & Hall). rewrite Ht. simpl.
  rewrite List.Forall_forall in Hall. intros Hin. exact (Hall _ Hin).
Qed.

(** ** Supporting facts on the loop body and on teardown *)

Lemma wp_run {A} (m : M A) s (x : result A * state) :
  wp m s (fun r s' => (r, s') = x) -> m s = x.
Proof. unfold wp. destruct (m s). auto. Qed.

(** When nothing fails up to the display, an iteration reads a frame,
    displays its downscaled version at [min(columns, 100)] columns,
    counts it, and then runs the pacing step. *)
Lemma loop_body_then_pace (w : env) (columns : Z) (s : state) (f : frame)
    (rest : list frame) :
  cap_frames s = f :: rest ->
  fault w (tick s) = None -> fault w (S (tick s)) = None ->
  fault w (S (S (tick s))) = None -> fault w (S (S (S (tick s)))) = None ->
  loop_body w columns s =
    (pace w >> ret Next)
      (State (audio_path s) (video_clip s) (frame_count s + 1) (start_time s)
             (target_frame_delay s) (cap_open s) rest (fs s)
             (S (S (S (S (tick s)))))
             (trace s ++ [EvRead true; EvDisplay (Z.min columns 100) (downscale f)])).
Proof.
  intros Hc H0 H1 H2 H3. destruct s as [ap vc fc st tfd co cf files tk tr].
  simpl in *. subst cf.
  apply wp_run. unfold loop_body.
  repeat wp_step w; wp_simpl; try congruence.
  unfold wp, bind. rewrite <- app_assoc. simpl.
  destruct (pace w _) as [[[]|e|] s']; reflexivity.
Qed.

Lemma releases_app (a b : list event) :
  releases (a ++ b) = (releases a + releases b)%nat.
Proof.
  induction a as [|e a IH]; simpl; [reflexivity|].
  destruct e; simpl; rewrite IH; reflexivity.
Qed.

Lemma loop_never_releases columns evs :
  Forall (loop_event columns) evs -> releases evs = O.
Proof.
  induction 1 as [|e evs He _ IH]; [reflexivity|].
  destruct e; simpl in *; auto; contradiction.
Qed.

(** The [finally] block: the capture is released, once, and the audio
    file named by [audio_path] is gone when its removal does not fail. *)
Lemma teardown_wp w s :
  wp (teardown w) s
     (fun _ s' =>
        cap_open s' = false /\
        releases (trace s') = S (releases (trace s)) /\
        (forall p, audio_path s = Some p -> cleanup_remove w = None ->
                   fs s' !! p = None)).
Proof.
  destruct s as [ap vc fc st tfd co cf files tk tr].
  repeat wp_step2 w; wp_simpl.
  all: split; [reflexivity|split].
  all: rewrite ?releases_app; simpl; try lia.
  all: intros p Hp Hr; try congruence; try injection Hp as <-.
  all: try apply lookup_delete_eq.
  all: try (apply bool_decide_eq_false in Heqb;
            apply eq_None_not_Some; exact Heqb).
  all: try assumption.
Qed.

(** Every way out of the render loop goes through the teardown. *)
Lemma playback_tears_down (w : env) (columns : Z) (s : state) :
  cap_open (snd (playback w columns s)) = false /\
  releases (trace (snd (playback w columns s))) = S (releases (trace s)) /\
  (forall p, audio_path s = Some p -> cleanup_remove w = None ->
             fs (snd (playback w columns s)) !! p = None).
Proof.
  change (wp (playback w columns) s
            (fun _ s' =>
               cap_open s' = false /\
               releases (trace s') = S (releases (trace s)) /\
               (forall p, audio_path s = Some p -> cleanup_remove w = None ->
                          fs s' !! p = None))).
  unfold playback.
  apply wp_try_finally, wp_try_except, wp_bind, wp_get. unfold lift_post.
  apply wp_intro. intros r s1 E.
  pose proof (render_loop_terminates w columns (S (length (cap_frames s))) s
                (Nat.lt_succ_diag_r _)) as Hf.
  rewrite E in Hf. simpl in Hf.
  destruct (render_loop_spec _ _ _ _ _ _ E) as (evs & Hev & _).
  assert (Hrel : releases (trace s1) = releases (trace s)).
  { rewrite (ev_trace _ _ _ _ Hev), releases_app,
      (loop_never_releases _ _ (ev_events _ _ _ _ Hev)). lia. }
  pose proof (ev_audio _ _ _ _ Hev) as Hau.
  destruct r as [u|e|]; [| |congruence].
  - pose proof (teardown_wp w s1) as Ht. unfold wp in *.
    destruct (teardown w s1) as [[|?|] s2]; simpl in *;
      rewrite <- Hrel, <- Hau; exact Ht.
  - destruct e; unfold wp at 1, print, modify; simpl;
      match goal with |- wp (teardown w) ?s2 _ =>
        pose proof (teardown_wp w s2) as Ht; unfold wp in *;
        destruct (teardown w s2) as [[|?|] s3]; simpl in *;
        rewrite releases_app in Ht; simpl in Ht;
        rewrite Nat.add_0_r in Ht; rewrite <- Hrel, <- Hau; exact Ht
      end.
Qed.

(** ** C4: the frame delay *)

(** C4.  [TargetFrameDelay] is [1/fps] for a positive reported rate and
    [1/30] for a rate that is zero or negative (what the source reports
    when the rate is unavailable).  It is assigned once the source is
    open and is the same at every later point of the session: after one
    iteration, at every loop head, when the loop ends and when
    [video_to_ascii_cli]'s playback part returns. *)
Theorem frame_delay_fixed (fps : Q) (w : env) (video_path : string)
    (columns : Z) (fuel : nat) (s s' : state) :
  ((0 < fps)%Q -> frame_delay fps = (1 / fps)%Q) /\
  ((fps <= 0)%Q -> frame_delay fps = (1 / 30)%Q) /\
  (capture_opens w = true ->
   target_frame_delay (snd (play_video w video_path columns s))
     = frame_delay (capture_fps w)) /\
  target_frame_delay (snd (loop_body w columns s)) = target_frame_delay s /\
  (loop_head w columns s s' -> target_frame_delay s' = target_frame_delay s) /\
  target_frame_delay (snd (render_loop w columns fuel s)) = target_frame_delay s.
Proof.
  repeat split.
  - intros H. unfold frame_delay. apply Qlt_bool_iff in H. rewrite H. reflexivity.
  - intros H. unfold frame_delay. apply Qlt_bool_false in H. rewrite H. reflexivity.
  - apply play_video_delay.
  - destruct (loop_body w columns s) as [r s1] eqn:E.
    destruct (loop_body_spec _ _ _ _ _ E) as (evs & H & _).
    exact (ev_delay _ _ _ _ H).
  - intros H. destruct (loop_head_spec _ _ _ _ H) as (evs & Hev & _).
    exact (ev_delay _ _ _ _ Hev).
  - destruct (render_loop_same_pacing w columns fuel s) as [H _]. exact H.
Qed.

Lemma frame_delay_fixed_witness :
  frame_delay 25 = (1 / 25)%Q /\ frame_delay 0 = (1 / 30)%Q /\
  target_frame_delay (snd (play_video (steady 0 [vga]) "clip.mp4" 80 (initial ∅)))
    = frame_delay 25.
Proof.
  destruct (frame_delay_fixed 25 (steady 0 [vga]) "clip.mp4" 80 O (initial ∅) (initial ∅))
    as (H1 & _ & H3 & _).
  destruct (frame_delay_fixed 0 (steady 0 [vga]) "clip.mp4" 80 O (initial ∅) (initial ∅))
    as (_ & H2 & _).
  split; [apply H1; reflexivity|]. split; [apply H2; discriminate|].
  apply H3. reflexivity.
Defined.

(** ** C2: the frame counter *)




(** ** C5: a frame whose conversion fails *)

(** An error of [AsciiArt.from_array] other than [AttributeError] is
    recovered: the frame is counted, nothing is displayed and the
    iteration ends normally, so the loop goes on to its next
    [cap.read()]. *)
Lemma render_failure_skipped (w : env) (columns : Z) (s : state) (f : frame)
    (rest : list frame) :
  cap_frames s = f :: rest ->
  fault w (tick s) = None -> fault w (S (tick s)) = None ->
  fault w (S (S (tick s))) = Some OtherException ->
  loop_body w columns s =
    (Ok Next,
     State (audio_path s) (video_clip s) (frame_count s + 1) (start_time s)
           (target_frame_delay s) (cap_open s) rest (fs s) (S (S (S (tick s))))
           (trace s ++ [EvRead true;
                        EvPrint "Unexpected error converting frame. Skipping frame."])).
Proof.
  intros Hc H0 H1 H2. destruct s as [ap vc fc st tfd co cf files tk tr].
  simpl in *. subst cf.
  apply wp_run. unfold loop_body.
  repeat wp_step w; wp_simpl; try congruence.
  rewrite <- app_assoc. reflexivity.
Qed.

(** C5 fails on the code when the conversion fails inside the
    [AttributeError] fallback: [from_array] raises [AttributeError],
    the frame is written to [Temp/temp_frame.png], [from_image] raises,
    and the exception leaves the loop.  The frame is not counted, the
    second frame is never read, and the temporary picture stays. *)
Theorem fallback_failure_halts_loop :
  let r := video_to_ascii_cli fallback_fails "clip.mp4" 80 (initial ∅) in
  fst r = Ok tt /\
  frame_count (snd r) = 0 /\
  cap_frames (snd r) = [vga] /\
  trace (snd r) =
    [EvPrint "Loading video file";
     EvPrint "No audio track found in the video file.";
     EvPrint "Video clip closed";
     EvRead true;
     EvWriteFrame "Temp/temp_frame.png";
     EvPrint "Error during video playback";
     EvRelease].
Proof. vm_compute. repeat split. Qed.

(** ** C6: exit status *)

(** C6 as stated fails: a file that cannot be opened as a video is
    reported and the process exits with status 0. *)
Lemma open_failure_exits_zero :
  capture_opens unreadable_video = false /\
  fst (main unreadable_video ["acvp.py"; "notes.txt"]%string ∅) = Some 0 /\
  trace (snd (main unreadable_video ["acvp.py"; "notes.txt"]%string ∅)) =
    [EvPrint "Loading video file";
     EvPrint "Error loading or processing video";
     EvPrint "Error: Could not open video file notes.txt"].
Proof. vm_compute. repeat split. Qed.

(** C6, amended.  A wrong argument count exits with status 1.  With one
    argument, when the user does not interrupt the program outside the
    render loop and [video_clip.close()] succeeds, the exit status is 0
    however the session goes: end of stream, interruption of the loop, a
    fatal error in the loop, or a source that cannot be opened. *)
Theorem exit_status_by_case (w : env) (argv : list string) (files : gmap string file) :
  (length argv <> 2%nat -> fst (main w argv files) = Some 1) /\
  (length argv = 2%nat ->
   audio_stage_calm w = true -> clip_close w = None -> fault w O = None ->
   fst (main w argv files) = Some 0).
Proof.
  split.
  - intros Hlen. unfold main.
    replace (length argv =? 2)%nat with false by (symmetry; apply Nat.eqb_neq; exact Hlen).
    reflexivity.
  - intros Hlen Hc Hcl Hf. unfold main.
    replace (length argv =? 2)%nat with true by (symmetry; apply Nat.eqb_eq; exact Hlen).
    simpl.
    pose proof (session_ok w (nth 1 argv ""%string) default_columns files Hc Hcl Hf) as H.
    destruct (video_to_ascii_cli _ _ _ _) as [r s]. simpl in *. subst r. reflexivity.
Qed.

Lemma exit_status_by_case_witness :
  fst (main interrupted_in_display ["acvp.py"]%string ∅) = Some 1 /\
  fst (main interrupted_in_display ["acvp.py"; "clip.mp4"]%string ∅) = Some 0 /\
  fst (main unreadable_video ["acvp.py"; "notes.txt"]%string ∅) = Some 0 /\
  fst (main (steady 0 [vga]) ["acvp.py"; "clip.mp4"]%string ∅) = Some 0.
Proof.
  split; [|split; [|split]].
  - apply (exit_status_by_case interrupted_in_display ["acvp.py"]%string ∅).
    discriminate.
  - apply (exit_status_by_case interrupted_in_display ["acvp.py"; "clip.mp4"]%string ∅);
      reflexivity.
  - apply (exit_status_by_case unreadable_video ["acvp.py"; "notes.txt"]%string ∅);
      reflexivity.
  - apply (exit_status_by_case (steady 0 [vga]) ["acvp.py"; "clip.mp4"]%string ∅);
      reflexivity.
Defined.

(** ** C7: teardown *)

(** C7 fails on the code when the loop is left between [cv2.imwrite] and
    the [os.remove] of line 192: here the user interrupts [to_terminal]
    of a frame rendered through the temporary file.  The capture is
    released, but [Temp/temp_frame.png] is never removed and is still
    there when the function returns. *)
Theorem temp_frame_left_after_interrupt :
  let r := video_to_ascii_cli interrupted_in_fallback "clip.mp4" 80 (initial ∅) in
  fst r = Ok tt /\
  trace (snd r) =
    [EvPrint "Loading video file";
     EvPrint "No audio track found in the video file.";
     EvPrint "Video clip closed";
     EvRead true;
     EvWriteFrame "Temp/temp_frame.png";
     EvPrint "Video playback interrupted by user.";
     EvRelease] /\
  fs (snd r) !! temp_frame = Some (FrameFile vga).
Proof. vm_compute. repeat split. Qed.

(** ** C8: audio failures *)

(** C8.  Suppose every failure of the audio stage is an ordinary
    exception (not a Ctrl-C) and the clip can be closed.  Then
    [video_to_ascii_cli] returns normally whatever happens in the render
    loop; when the source opens and no call of the loop fails, the loop
    reads every frame of the source and counts it; and when the clip
    cannot be loaded, both extractions fail, the extracted file is
    missing, empty or unreadable, or [playsound] fails, no audio playback
    is started. *)
Theorem audio_failures_absorbed (w : env) (video_path : string) (columns : Z)
    (files : gmap string file) (p : string) :
  audio_stage_calm w = true -> clip_close w = None ->
  (fault w O = None ->
   fst (video_to_ascii_cli w video_path columns (initial files)) = Ok tt) /\
  (capture_opens w = true -> (forall n, fault w n = None) ->
   cap_frames (snd (video_to_ascii_cli w video_path columns (initial files))) = [] /\
   frame_count (snd (video_to_ascii_cli w video_path columns (initial files)))
     = Z.of_nat (length (capture_frames w))) /\
  (audio_unavailable w \/ play_start w <> None ->
   ~ In (EvPlay p) (trace (snd (video_to_ascii_cli w video_path columns (initial files))))).
Proof.
  intros Hc Hcl. split; [|split].
  - intros Hf. apply session_ok; assumption.
  - intros Ho Hnf. unfold video_to_ascii_cli, bind.
    destruct (prepare_audio w video_path (initial files)) as [r1 s1] eqn:E1.
    destruct (wp_elim _ _ _ _ _ (prepare_audio_wp w video_path _) E1) as (_ & Hok & _).
    rewrite (Hok Hc Hcl).
    apply play_video_completes; auto.
    unfold audio_stage_calm in Hc.
    repeat (let H := fresh in apply andb_prop in Hc as [Hc H]). assumption.
  - intros Hq. apply session_no_play; assumption.
Qed.

Lemma audio_failures_absorbed_witness :
  fst (video_to_ascii_cli extraction_fails "clip.mp4" 80 (initial ∅)) = Ok tt /\
  frame_count (snd (video_to_ascii_cli extraction_fails "clip.mp4" 80 (initial ∅))) = 2 /\
  ~ In (EvPlay "Temp/clip_audio.mp3")
       (trace (snd (video_to_ascii_cli extraction_fails "clip.mp4" 80 (initial ∅)))).
Proof.
  destruct (audio_failures_absorbed extraction_fails "clip.mp4" 80 ∅
              "Temp/clip_audio.mp3" eq_refl eq_refl) as (H1 & H2 & H3).
  split; [apply H1; reflexivity|]. split.
  - apply H2; reflexivity.
  - apply H3. left. right. left. split; discriminate.
Defined.

(** * Further properties of the code *)

(** ** Termination *)

Lemma fin_ret {A} (a : A) : finishes (ret a).
Proof. intros s. discriminate. Qed.

Lemma fin_raise {A} (e : exn) : finishes (@raise A e).
Proof. intros s. discriminate. Qed.

Lemma fin_get : finishes get.
Proof. intros s. discriminate. Qed.

Lemma fin_modify f : finishes (modify f).
Proof. intros s. discriminate. Qed.

Lemma fin_site o : finishes (site o).
Proof. destruct o; [apply fin_raise | apply fin_ret]. Qed.

Lemma fin_call w : finishes (call w).
Proof. intros s. unfold call. destruct (fault w (tick s)); discriminate. Qed.

Lemma fin_bind {A B} (m : M A) (f : A -> M B) :
  finishes m -> (forall a, finishes (f a)) -> finishes (bind m f).
Proof.
  intros Hm Hf s. unfold bind. pose proof (Hm s) as H.
  destruct (m s) as [[a|e|] s1]; simpl in *; [apply Hf | discriminate | congruence].
Qed.

Lemma fin_try_except {A} (m : M A) h :
  finishes m -> (forall e k, h e = Some k -> finishes k) -> finishes (try_except m h).
Proof.
  intros Hm Hh s. unfold try_except. pose proof (Hm s) as H.
  destruct (m s) as [[a|e|] s1]; simpl in *; [discriminate | | congruence].
  destruct (h e) as [k|] eqn:Ek; [exact (Hh e k Ek s1) | discriminate].
Qed.

Lemma fin_except_Exception {A} (k : M A) e k' :
  finishes k -> except_Exception k e = Some k' -> finishes k'.
Proof.
  unfold except_Exception. destruct (is_Exception e); [|discriminate].
  intros H [= <-]. exact H.
Qed.

Lemma fin_try_finally {A} (m : M A) f :
  finishes m -> finishes f -> finishes (try_finally m f).
Proof.
  intros Hm Hf s. unfold try_finally. pose proof (Hm s) as H.
  destruct (m s) as [[a|e|] s1]; simpl in *; [| |congruence];
    pose proof (Hf s1) as H2;
    destruct (f s1) as [[u|e'|] s2]; simpl in *; congruence.
Qed.

Lemma fin_render_loop w columns :
  finishes (let* s := get in render_loop w columns (S (length (cap_frames s)))).
Proof.
  intros s.
  exact (render_loop_terminates w columns (S (length (cap_frames s))) s
           (Nat.lt_succ_diag_r _)).
Qed.

Ltac fin_step :=
  first
    [ apply fin_render_loop
    | apply fin_ret | apply fin_raise | apply fin_get | apply fin_site
    | apply fin_call | apply fin_modify
    | apply fin_bind; [|intros ?]
    | apply fin_try_finally
    | apply fin_try_except; [|intros ? ? ?Hh]
    | match goal with
      | H : except_Exception _ _ = Some _ |- _ =>
          eapply fin_except_Exception; [|exact H]
      | H : match ?e with _ => _ end = Some _ |- _ =>
          destruct e; try discriminate; injection H as <-
      | |- finishes (match ?x with _ => _ end) => destruct x
      | |- finishes (if ?x then _ else _) => destruct x
      end ].

Lemma video_to_ascii_cli_finishes w video_path columns :
  finishes (video_to_ascii_cli w video_path columns).
Proof. unfold_session. repeat fin_step. Qed.

(** X1.  The program always ends with an exit status: however the
    collaborators behave, the render loop needs no more iterations than
    one more than the frames left in the source, so neither
    [video_to_ascii_cli] nor [__main__] can fail to return. *)
Theorem main_always_exits (w : env) (argv : list string) (files : gmap string file) :
  exists code, fst (main w argv files) = Some code.
Proof.
  unfold main. destruct (negb (length argv =? 2)%nat); [eexists; reflexivity|].
  pose proof (video_to_ascii_cli_finishes w (nth 1 argv ""%string) default_columns
                (initial files)) as H.
  destruct (video_to_ascii_cli _ _ _ _) as [[u|[]|] s]; simpl in *;
    try (eexists; reflexivity).
  congruence.
Qed.

(** ** Downscaling *)



(** ** Catch-up arithmetic *)






(** ** Sleeps and files of the render loop *)

Lemma tidy_refl s : tidy s s.
Proof. split; [apply logs_refl | intros p _; reflexivity]. Qed.

Lemma tidy_trans a b c : tidy a b -> tidy b c -> tidy a c.
Proof.
  intros [L1 K1] [L2 K2]. split; [exact (logs_trans _ _ _ _ L1 L2)|].
  intros p Hp. rewrite (K2 p Hp). apply K1. exact Hp.
Qed.

Ltac tidy_leaf :=
  split;
  [ eexists; split;
    [ simpl; rewrite <- ?app_assoc; simpl;
      first [reflexivity | symmetry; apply app_nil_r]
    | repeat constructor; simpl; auto ]
  | intros ? ?; simpl;
    rewrite ?lookup_delete_ne, ?lookup_insert_ne by congruence; reflexivity ].

Lemma skip_frames_tidy w n : stable tidy (skip_frames w n).
Proof.
  intros s.
  destruct (skip_frames_spec w n s) as (d & tl & _ & _ & Htl & Hst & _).
  rewrite Hst. split.
  - exists (replicate d (EvRead true) ++ tl). split; [reflexivity|].
    apply Forall_app. split.
    + apply Forall_forall. intros e He. apply elem_of_replicate in He as [-> _]. exact I.
    + destruct Htl as [-> | ->]; repeat constructor.
  - intros p _. reflexivity.
Qed.

Lemma pace_tidy w : stable tidy (pace w).
Proof.
  intros s. change (wp (pace w) s (fun _ s' => tidy s s')).
  destruct s as [ap vc fc st tfd co cf files tk tr].
  unfold pace.
  repeat wp_step w; wp_simpl;
    try (tidy_leaf; fail).
  - split;
      [ eexists; split; [simpl; reflexivity|];
        repeat constructor; simpl; apply Qlt_bool_iff; assumption
      | intros ? ?; reflexivity ].
  - apply (wp_stable tidy); [apply skip_frames_tidy|].
    intros r s' HR. eapply tidy_trans; [|exact HR]. tidy_leaf.
Qed.

Lemma loop_body_tidy w columns : stable tidy (loop_body w columns).
Proof.
  intros s. change (wp (loop_body w columns) s (fun _ s' => tidy s s')).
  destruct s as [ap vc fc st tfd co cf files tk tr].
  unfold loop_body.
  repeat wp_step w; wp_simpl;
    try (tidy_leaf; fail).
  all: apply (wp_stable tidy); [apply pace_tidy|];
    intros r s' HR; destruct r; wp_simpl; unfold wp; simpl;
    (eapply tidy_trans; [|exact HR]); tidy_leaf.
Qed.

Lemma cap_isOpened_tidy w : stable tidy (cap_isOpened w).
Proof.
  intros s. unfold cap_isOpened, bind, call, get, ret.
  destruct s; simpl. destruct (fault w _); simpl; tidy_leaf.
Qed.

Lemma render_loop_tidy w columns fuel : stable tidy (render_loop w columns fuel).
Proof.
  induction fuel as [|fuel IH]; [intros s; apply tidy_refl|].
  simpl.
  apply st_bind; [exact tidy_trans | apply cap_isOpened_tidy | intros o].
  destruct o; [|apply st_ret; exact tidy_refl].
  apply st_bind; [exact tidy_trans | apply loop_body_tidy | intros c].
  destruct c; [exact IH | apply st_ret; exact tidy_refl].
Qed.

Lemma render_loop_sleeps_positive w columns fuel :
  stable (logs sleeps_positive) (render_loop w columns fuel).
Proof.
  intros s. destruct (render_loop_tidy w columns fuel s) as [(evs & Ht & Hall) _].
  exists evs. split; [exact Ht|].
  eapply Forall_impl; [exact Hall|]. intros []; simpl; auto.
Qed.

(** X4.  [time.sleep] is never called with a zero or negative duration:
    every sleep of a session lasts a positive time. *)
Theorem sleeps_are_positive (w : env) (video_path : string) (columns : Z)
    (files : gmap string file) (d : Q) :
  In (EvSleep d)
     (trace (snd (video_to_ascii_cli w video_path columns (initial files)))) ->
  (0 < d)%Q.
Proof.
  assert (H : stable (logs sleeps_positive) (video_to_ascii_cli w video_path columns)).
  { unfold_session.
    repeat first [apply render_loop_sleeps_positive | st_step logs_side]. }
  destruct (H (initial files)) as (evs & Ht & Hall).
  rewrite Ht. simpl. intros Hin.
  rewrite List.Forall_forall in Hall. exact (Hall _ Hin).
Qed.

(** X5.  The render loop touches one file only: every file other than
    [Temp/temp_frame.png] is the same after the loop as before it,
    whatever was rendered, skipped or interrupted, and every
    [cv2.imwrite] and [os.remove] of the loop is on that path. *)
Theorem loop_touches_only_temp_frame (w : env) (columns : Z) (fuel : nat)
    (s : state) (p : string) :
  (p <> temp_frame ->
   fs (snd (render_loop w columns fuel s)) !! p = fs s !! p) /\
  exists evs,
    trace (snd (render_loop w columns fuel s)) = trace s ++ evs /\
    forall q, In (EvWriteFrame q) evs \/ In (EvRemove q) evs -> q = temp_frame.
Proof.
  destruct (render_loop_tidy w columns fuel s) as [(evs & Ht & Hall) Hk].
  split; [apply Hk|].
  exists evs. split; [exact Ht|].
  rewrite List.Forall_forall in Hall.
  intros q [Hq|Hq]; exact (Hall _ Hq).
Qed.

Lemma loop_touches_only_temp_frame_witness :
  fs (snd (render_loop interrupted_in_fallback 80 3
             (State None false 0 0 (1 / 25) true [vga; vga]
                    {["Temp/clip_audio.mp3" := AudioFile 7]} 1 [])))
    !! "Temp/clip_audio.mp3"
  = Some (AudioFile 7).
Proof.
  destruct (loop_touches_only_temp_frame interrupted_in_fallback 80 3
              (State None false 0 0 (1 / 25) true [vga; vga]
                     {["Temp/clip_audio.mp3" := AudioFile 7]} 1 [])
              "Temp/clip_audio.mp3") as [H _].
  rewrite H; [reflexivity | discriminate].
Defined.

Lemma sleeps_are_positive_witness :
  exists d, In (EvSleep d)
              (trace (snd (video_to_ascii_cli (steady 0 [vga]) "clip.mp4" 80 (initial ∅))))
            /\ (0 < d)%Q.
Proof.
  eexists. split.
  - vm_compute. do 5 right. left. reflexivity.
  - eapply (sleeps_are_positive (steady 0 [vga]) "clip.mp4" 80 ∅).
    vm_compute. do 5 right. left. reflexivity.
Defined.

(** ** The audio stage when the extraction goes through *)

Ltac stage_leaf :=
  repeat match goal with
         | H : bool_decide (is_Some None) = true |- _ =>
             apply bool_decide_eq_true in H; destruct H as [? H]; discriminate H
         | H : probe_read ?w = Some _, H' : probe_read ?w = Some ?e |- _ =>
             rewrite H in H'; injection H' as <-
         | H : is_Exception KeyboardInterrupt = true |- _ => discriminate H
         | H : (0 <? _) = true |- _ => apply Z.ltb_lt in H
         | H : (0 <? _) = false |- _ => apply Z.ltb_ge in H
         end;
  cbn [getsize] in *; try lia; try congruence.

Lemma exists_Some {A} (x : A) : bool_decide (is_Some (Some x)) = true.
Proof. apply bool_decide_eq_true. eauto. Qed.

(** A step that uses what is known: the outcome of a call site, the
    exception that was raised, a file that is there. *)
Ltac wp_step3 w :=
  wp_simpl;
  lazymatch goal with
  | |- match except_Exception _ KeyboardInterrupt with _ => _ end =>
      rewrite except_Exception_interrupt
  | |- match except_Exception _ AttributeError with _ => _ end =>
      rewrite except_Exception_attribute
  | |- match except_Exception _ OtherException with _ => _ end =>
      rewrite except_Exception_other
  | |- wp (site None) _ _ => change (site None) with (@ret unit tt); apply wp_ret
  | |- wp (site (Some ?e)) _ _ =>
      change (site (Some e)) with (@raise unit e); apply wp_raise
  | H : ?m !! ?k = Some _ |- context [?m !! ?k] => rewrite H
  | |- context [bool_decide (is_Some (Some ?x))] => rewrite (exists_Some x)
  | |- _ => wp_step2 w
  end.

Ltac prune :=
  try match goal with
      | H : None = Some _ |- _ => discriminate H
      | H : Some _ = None |- _ => discriminate H
      | H : true = false |- _ => discriminate H
      | H : false = true |- _ => discriminate H
      end.

Lemma prepare_audio_extracts w path s n :
  mp3_extracted w n ->
  wp (prepare_audio w path) s
     (fun r s' =>
        tick s' = tick s /\ same_position s s' /\
        logs (stage_event w) s s' /\
        fs s' = <[mp3_path w := AudioFile n]> (fs s) /\
        (0 < n -> probe_read w = None -> r = Ok tt /\ audio_path s' = Some (mp3_path w)) /\
        (0 < n -> forall e, probe_read w = Some e -> is_Exception e = true ->
                  r = Ok tt /\ audio_path s' = None) /\
        (n <= 0 -> r = Ok tt /\ audio_path s' = None)).
Proof.
  intros (H1 & H2 & H3 & H4 & H5 & H6).
  destruct s as [ap vc fc st tfd co cf files tk tr].
  unfold prepare_audio, extract_audio, verify_audio, write_audiofile.
  rewrite H1, H2, H3, H4, H5, H6.
  fold (mp3_path w). remember (mp3_path w) as mp3 eqn:Hmp3.
  repeat (wp_step3 w; prune); wp_simpl.
  all: subst mp3.
  all: try (exfalso; stage_leaf; fail).
  all: split; [reflexivity|]; split; [split; reflexivity|]; split;
    [ eexists; split;
      [ rewrite <- ?app_assoc; simpl; first [reflexivity | symmetry; apply app_nil_r]
      | repeat constructor ]
    | split; [ rewrite ?insert_delete_eq; reflexivity | ] ].
  all: split; [intros; first [split; reflexivity | exfalso; stage_leaf]|].
  all: split; intros; first [split; reflexivity | exfalso; stage_leaf].
Qed.

(** ** Files of a session *)

Lemma string_length_app (a b : string) :
  String.length (a +:+ b) = (String.length a + String.length b)%nat.
Proof. induction a as [|c a IH]; simpl; [reflexivity | rewrite IH; reflexivity]. Qed.

Lemma mp3_path_not_temp_frame w : mp3_path w <> temp_frame.
Proof.
  unfold mp3_path, temp_frame, path_join, temp_dir. simpl.
  intros [= H]. revert H.
  destruct (video_name w) as [|c1 [|c2 [|c3 [|c4 [|c5 r]]]]]; simpl;
    try discriminate.
  intros H. apply (f_equal String.length) in H. simpl in H.
  rewrite string_length_app in H. simpl in H. lia.
Qed.

Lemma teardown_keeps w s :
  wp (teardown w) s
     (fun _ s' => forall p, audio_path s <> Some p -> fs s' !! p = fs s !! p).
Proof.
  destruct s as [ap vc fc st tfd co cf files tk tr].
  repeat wp_step2 w; wp_simpl.
  all: intros p Hp; try reflexivity.
  all: apply lookup_delete_ne; congruence.
Qed.

Lemma playback_keeps w columns s p :
  p <> temp_frame -> audio_path s <> Some p ->
  fs (snd (playback w columns s)) !! p = fs s !! p.
Proof.
  intros Hp Ha.
  change (wp (playback w columns) s (fun _ s' => fs s' !! p = fs s !! p)).
  unfold playback.
  apply wp_try_finally, wp_try_except, wp_bind, wp_get. unfold lift_post.
  apply wp_intro. intros r s1 E.
  pose proof (render_loop_terminates w columns (S (length (cap_frames s))) s
                (Nat.lt_succ_diag_r _)) as Hf.
  pose proof (render_loop_tidy w columns (S (length (cap_frames s))) s) as [_ Hk].
  rewrite E in Hf, Hk. simpl in Hf, Hk.
  destruct (render_loop_spec _ _ _ _ _ _ E) as (evs & Hev & _).
  pose proof (ev_audio _ _ _ _ Hev) as Hau.
  destruct r as [u|e|]; [| |congruence].
  - pose proof (teardown_keeps w s1) as Ht. unfold wp in *.
    destruct (teardown w s1) as [[|?|] s2]; simpl in *;
      (rewrite Ht; [exact (Hk p Hp) | congruence]).
  - destruct e; unfold wp at 1, print, modify; simpl;
      match goal with |- wp (teardown w) ?s2 _ =>
        pose proof (teardown_keeps w s2) as Ht; unfold wp in *;
        destruct (teardown w s2) as [[|?|] s3]; simpl in *;
        (rewrite Ht; [exact (Hk p Hp) | congruence])
      end.
Qed.

Lemma start_audio_files w s :
  wp (start_audio w) s
     (fun r s' =>
        fs s' = fs s /\ audio_path s' = audio_path s /\
        (forall a, audio_path s = Some a -> play_start w = None ->
           r = Ok tt /\
           trace s' = trace s ++ [EvPlay a; EvPrint "Audio playback initiated."])).
Proof.
  destruct s as [ap vc fc st tfd co cf files tk tr].
  repeat wp_step2 w; wp_simpl.
  all: split; [reflexivity|split; [reflexivity|]].
  all: intros a Ha Hs; try congruence.
  injection Ha as <-. split; [reflexivity|].
  rewrite <- app_assoc. reflexivity.
Qed.

Lemma play_video_keeps w path columns s p :
  p <> temp_frame -> audio_path s <> Some p ->
  fs (snd (play_video w path columns s)) !! p = fs s !! p.
Proof.
  intros Hp Ha.
  change (wp (play_video w path columns) s (fun _ s' => fs s' !! p = fs s !! p)).
  destruct s as [ap vc fc st tfd co cf files tk tr].
  unfold play_video.
  repeat wp_step w; wp_simpl; try reflexivity.
  apply wp_intro. intros r s1 E.
  destruct (wp_elim _ _ _ _ _ (start_audio_files w _) E) as (Hfs & Hau & _).
  simpl in *.
  destruct r; wp_simpl; try (rewrite Hfs; reflexivity).
  unfold wp. rewrite playback_keeps; [rewrite Hfs; reflexivity | exact Hp | congruence].
Qed.

Lemma play_video_round_trip w path columns s a :
  audio_path s = Some a -> capture_opens w = true ->
  play_start w = None -> cleanup_remove w = None ->
  fault w (tick s) = None ->
  fs (snd (play_video w path columns s)) !! a = None /\
  exists post,
    trace (snd (play_video w path columns s)) = trace s ++ EvPlay a :: post /\
    Forall no_play post.
Proof.
  intros Ha Ho Hs Hc Hf.
  change (wp (play_video w path columns) s
            (fun _ s' => fs s' !! a = None /\
                         exists post, trace s' = trace s ++ EvPlay a :: post /\
                                      Forall no_play post)).
  destruct s as [ap vc fc st tfd co cf files tk tr].
  simpl in Ha, Hf. subst ap.
  unfold play_video.
  repeat wp_step w; wp_simpl; try congruence;
    try (rewrite Ho in *; discriminate).
  apply wp_intro. intros r s1 E.
  destruct (wp_elim _ _ _ _ _ (start_audio_files w _) E) as (Hfs & Hau & Hpl).
  simpl in *.
  destruct (Hpl a eq_refl Hs) as [-> Ht].
  wp_simpl. unfold wp.
  destruct (playback_tears_down w columns s1) as (_ & _ & Hrm).
  destruct (playback_no_play w columns s1) as (evs & Hevs & Hall).
  split; [exact (Hrm a Hau Hc)|].
  exists (EvPrint "Audio playback initiated." :: evs).
  split; [|constructor; [exact I|exact Hall]].
  rewrite Hevs, Ht, <- app_assoc. reflexivity.
Qed.

(** X6.  The round trip of the extracted audio.  When the track is
    extracted to a non-empty, readable file, the capture opens, and
    neither the start of playback, the start of the clock nor the final
    [os.remove] fails, then, whatever happens in the render loop, the
    file is played once, before any frame is read, it is gone when the
    function returns, and no file other than it and
    [Temp/temp_frame.png] has changed. *)
Theorem extracted_audio_played_then_removed (w : env) (video_path : string)
    (columns : Z) (files : gmap string file) (n : Z) :
  mp3_extracted w n -> 0 < n -> probe_read w = None ->
  capture_opens w = true -> play_start w = None -> cleanup_remove w = None ->
  fault w O = None ->
  let s' := snd (video_to_ascii_cli w video_path columns (initial files)) in
  fs s' !! mp3_path w = None /\
  (forall p, p <> mp3_path w -> p <> temp_frame -> fs s' !! p = files !! p) /\
  exists pre post,
    trace s' = pre ++ EvPlay (mp3_path w) :: post /\
    Forall (stage_event w) pre /\ Forall no_play post.
Proof.
  intros Hx Hn Hpr Ho Hs Hc Hf. cbv zeta.
  unfold video_to_ascii_cli, bind.
  destruct (prepare_audio w video_path (initial files)) as [r1 s1] eqn:E1.
  destruct (wp_elim _ _ _ _ _ (prepare_audio_extracts w video_path _ n Hx) E1)
    as (Ht & _ & (pre & Hpre & Hall) & Hfs & Hgood & _).
  destruct (Hgood Hn Hpr) as [-> Hap].
  destruct (play_video_round_trip w video_path columns s1 _ Hap Ho Hs Hc)
    as (Hrm & post & Hpost & Hnp).
  { rewrite Ht. exact Hf. }
  split; [exact Hrm|]. split.
  - intros p H1 H2. rewrite play_video_keeps; [|exact H2|congruence].
    rewrite Hfs. apply lookup_insert_ne. congruence.
  - exists pre, post. rewrite Hpost, Hpre. simpl. auto.
Qed.

(** X7.  A defective extracted file is never cleaned up: when the
    extraction leaves an empty file, or one that cannot be read, the
    function forgets its path, so the file is still in [Temp] when the
    function returns, whatever happened during playback. *)
Theorem defective_audio_left_behind (w : env) (video_path : string)
    (columns : Z) (files : gmap string file) (n : Z) :
  mp3_extracted w n ->
  n <= 0 \/ (exists e, probe_read w = Some e /\ is_Exception e = true) ->
  fs (snd (video_to_ascii_cli w video_path columns (initial files))) !! mp3_path w
  = Some (AudioFile n).
Proof.
  intros Hx Hbad.
  unfold video_to_ascii_cli, bind.
  destruct (prepare_audio w video_path (initial files)) as [r1 s1] eqn:E1.
  destruct (wp_elim _ _ _ _ _ (prepare_audio_extracts w video_path _ n Hx) E1)
    as (_ & _ & _ & Hfs & _ & Hprobe & Hempty).
  assert (Hr : r1 = Ok tt /\ audio_path s1 = None).
  { destruct (Z_lt_le_dec 0 n) as [Hn|Hn]; [|exact (Hempty Hn)].
    destruct Hbad as [Hb|(e & He & Hex)]; [lia|]. exact (Hprobe Hn e He Hex). }
  destruct Hr as [-> Hap].
  rewrite play_video_keeps;
    [ rewrite Hfs; apply lookup_insert_eq
    | apply mp3_path_not_temp_frame
    | congruence ].
Qed.

(** ** A source that does not open *)

Lemma stage_only_refl w s : stage_only w s s.
Proof. split; [apply logs_refl | split; reflexivity]. Qed.

Lemma stage_only_trans w a b c :
  stage_only w a b -> stage_only w b c -> stage_only w a c.
Proof.
  intros (L1 & A1 & B1) (L2 & A2 & B2).
  split; [exact (logs_trans _ _ _ _ L1 L2) | split; congruence].
Qed.

Ltac stage_side w :=
  first
    [ exact (stage_only_refl w)
    | exact (stage_only_trans w)
    | intros; split;
      [ first [ apply logs_one; first [exact I | reflexivity]
              | apply logs_keep; reflexivity ]
      | split; reflexivity ] ].

Lemma prepare_audio_stage_only w path :
  stable (stage_only w) (prepare_audio w path).
Proof.
  unfold prepare_audio, extract_audio, verify_audio, write_audiofile,
    path_exists, unlink, print.
  repeat st_step ltac:(stage_side w).
Qed.

(** X8.  When OpenCV cannot open the file, the function stops right
    after the audio stage: the clock is never started, nothing is read,
    displayed, played or released, and the audio file the stage
    extracted is left in [Temp]. *)
Theorem unopened_video_stops_early (w : env) (video_path : string)
    (columns : Z) (files : gmap string file) :
  capture_opens w = false ->
  let s' := snd (video_to_ascii_cli w video_path columns (initial files)) in
  tick s' = O /\ cap_open s' = false /\
  Forall (stage_event w) (trace s') /\
  forall n, mp3_extracted w n -> fs s' !! mp3_path w = Some (AudioFile n).
Proof.
  intros Ho. cbv zeta. unfold video_to_ascii_cli, bind.
  pose proof (prepare_audio_stage_only w video_path (initial files))
    as ((evs & Ht & Hall) & Hc & Hk).
  assert (Hfs : forall n, mp3_extracted w n ->
            fs (snd (prepare_audio w video_path (initial files))) !! mp3_path w
            = Some (AudioFile n)).
  { intros n Hx.
    pose proof (prepare_audio_extracts w video_path (initial files) n Hx)
      as (_ & _ & _ & Hf & _).
    rewrite Hf. apply lookup_insert_eq. }
  destruct (prepare_audio w video_path (initial files)) as [r1 s1].
  simpl in Ht, Hc, Hk, Hfs.
  destruct s1 as [ap vc fc st tfd co cf fl tk tr]. simpl in *. subst tr co tk.
  destruct r1 as [[]| e |]; simpl; auto.
  unfold play_video, bind, modify, get, print. simpl. rewrite Ho. simpl.
  repeat split; auto.
  apply Forall_app. split; [exact Hall|]. repeat constructor.
Qed.

Lemma unopened_video_stops_early_witness :
  fs (snd (video_to_ascii_cli (audio_only 2048) "clip.mp4" 80 (initial ∅)))
    !! "Temp/clip_audio.mp3" = Some (AudioFile 2048).
Proof.
  destruct (unopened_video_stops_early (audio_only 2048) "clip.mp4" 80 ∅ eq_refl)
    as (_ & _ & _ & H).
  apply (H 2048). repeat split; reflexivity.
Defined.

(** ** Ctrl-C while the audio is extracted *)

(** X9.  A Ctrl-C during the MP3 extraction is caught by none of the
    [except Exception] clauses of the audio stage: the clip is still
    closed by the [finally], then the interrupt leaves the function
    before the capture is created, the process exits with status 130,
    and whatever the interrupted write left at the audio path stays. *)
Theorem interrupt_during_extraction (w : env) (prog video_path : string)
    (files : gmap string file) :
  clip_load w = None -> clip_has_audio w = true -> stale_remove w = None ->
  mp3_write w = Some KeyboardInterrupt -> clip_close w = None ->
  let r := main w [prog; video_path] files in
  fst r = Some 130 /\
  tick (snd r) = O /\ cap_open (snd r) = false /\
  last (trace (snd r)) = Some (EvPrint "Video clip closed") /\
  fs (snd r) !! mp3_path w = AudioFile <$> mp3_file w.
Proof.
  intros H1 H2 H3 H4 H5. cbv zeta.
  unfold main. simpl length. simpl negb. cbv iota. simpl nth.
  unfold video_to_ascii_cli, bind.
  assert (Hp : wp (prepare_audio w video_path) (initial files)
            (fun r s' =>
               r = Raise KeyboardInterrupt /\ tick s' = O /\ cap_open s' = false /\
               last (trace s') = Some (EvPrint "Video clip closed") /\
               fs s' !! mp3_path w = AudioFile <$> mp3_file w)).
  { unfold initial, prepare_audio, extract_audio, write_audiofile.
    rewrite H1, H2, H3, H4, H5. fold (mp3_path w).
    generalize (mp3_path w). intros mp3.
    repeat (wp_step3 w; prune); wp_simpl.
    all: try (exfalso; stage_leaf; fail).
    all: repeat (split; [reflexivity|]).
    all: simpl; rewrite ?lookup_insert_eq, ?lookup_delete_eq; try reflexivity.
    all: apply bool_decide_eq_false in Heqb; apply eq_None_not_Some in Heqb;
      exact Heqb. }
  unfold wp in Hp.
  destruct (prepare_audio w video_path (initial files)) as [r1 s1].
  simpl in Hp. destruct Hp as (-> & Hp). simpl. split; [reflexivity|exact Hp].
Qed.

Lemma interrupt_during_extraction_witness :
  fst (main (interrupted_in_extraction (Some 100)) ["acvp.py"; "clip.mp4"]%string ∅)
  = Some 130.
Proof.
  destruct (interrupt_during_extraction (interrupted_in_extraction (Some 100))
              "acvp.py" "clip.mp4" ∅ eq_refl eq_refl eq_refl eq_refl eq_refl)
    as [H _].
  exact H.
Defined.

(** ** A frame whose conversion fails *)

(** X11.  An error of [AsciiArt.from_array] other than [AttributeError]
    costs exactly one frame: the iteration reads the frame, counts it,
    displays nothing, does no pacing, and the loop continues from its
    head with the remaining frames. *)
Theorem failed_frame_costs_one_read (w : env) (columns : Z) (fuel : nat)
    (s : state) (f : frame) (rest : list frame) :
  cap_open s = true -> cap_frames s = f :: rest ->
  fault w (tick s) = None -> fault w (S (tick s)) = None ->
  fault w (S (S (tick s))) = None ->
  fault w (S (S (S (tick s)))) = Some OtherException ->
  render_loop w columns (S fuel) s =
  render_loop w columns fuel
    (State (audio_path s) (video_clip s) (frame_count s + 1) (start_time s)
           (target_frame_delay s) true rest (fs s) (S (S (S (S (tick s)))))
           (trace s ++ [EvRead true;
                        EvPrint "Unexpected error converting frame. Skipping frame."])).
Proof.
  intros Ho Hc H0 H1 H2 H3.
  destruct s as [ap vc fc st tfd co cf fl tk tr]. simpl in *. subst co cf.
  assert (E : cap_isOpened w (State ap vc fc st tfd true (f :: rest) fl tk tr)
              = (Ok true, State ap vc fc st tfd true (f :: rest) fl (S tk) tr)).
  { unfold cap_isOpened, bind, call, get, ret. simpl. rewrite H0. reflexivity. }
  cbn [render_loop]. unfold bind at 1. rewrite E.
  unfold bind at 1.
  rewrite (render_failure_skipped w columns
             (State ap vc fc st tfd true (f :: rest) fl (S tk) tr) f rest
             eq_refl H1 H2 H3).
  reflexivity.
Qed.

Lemma failed_frame_costs_one_read_witness :
  frame_count (snd (render_loop unconvertible_frame 80 3 (after_frame 0 [vga; vga])))
  = 2.
Proof.
  rewrite (failed_frame_costs_one_read unconvertible_frame 80 2
             (after_frame 0 [vga; vga]) vga [vga]
             eq_refl eq_refl eq_refl eq_refl eq_refl eq_refl).
  vm_compute. reflexivity.
Defined.

(** ** What is displayed *)


















(** ** The capture handle *)

Lemma stage_event_releases w evs :
  Forall (stage_event w) evs -> releases evs = O.
Proof.
  induction 1 as [|e evs He _ IH]; [reflexivity|].
  destruct e; simpl in *; try contradiction; exact IH.
Qed.

(** X12.  When no Ctrl-C hits the audio stage, [playsound] or the final
    [os.remove], the clip can be closed, the capture opens and the clock
    can be started, [cap.release()] is called exactly once, whether the
    loop ends by itself, by an error or by Ctrl-C, and the capture is
    closed when the function returns. *)
Theorem capture_released_once (w : env) (video_path : string) (columns : Z)
    (files : gmap string file) :
  audio_stage_calm w = true -> clip_close w = None ->
  capture_opens w = true -> fault w O = None ->
  let s' := snd (video_to_ascii_cli w video_path columns (initial files)) in
  releases (trace s') = 1%nat /\ cap_open s' = false.
Proof.
  intros Hc Hcl Ho Hf. cbv zeta. unfold video_to_ascii_cli, bind.
  pose proof (prepare_audio_stage_only w video_path (initial files))
    as ((pre & Ht & Hall) & _ & Hk).
  pose proof (prepare_audio_wp w video_path (initial files)) as (_ & Hok & _).
  specialize (Hok Hc Hcl). unfold wp in Hok.
  destruct (prepare_audio w video_path (initial files)) as [r1 s1].
  simpl in Ht, Hk, Hok. subst r1. apply stage_event_releases in Hall.
  unfold audio_stage_calm in Hc.
  repeat (let H := fresh in apply andb_prop in Hc as [Hc H]).
  change (wp (play_video w video_path columns) s1
            (fun _ s' => releases (trace s') = 1%nat /\ cap_open s' = false)).
  destruct s1 as [ap vc fc st tfd co cf fl tk tr]. simpl in Ht, Hk. subst tr tk.
  unfold play_video.
  repeat wp_step w; wp_simpl; try congruence;
    try (rewrite Ho in *; discriminate).
  apply wp_intro. intros r s2 E.
  destruct (wp_elim _ _ _ _ _ (start_audio_wp w _) E)
    as (Hr & _ & _ & _ & _ & _ & (evs & Hevs & Hev) & _).
  rewrite Hr by assumption. wp_simpl. unfold wp.
  destruct (playback_tears_down w columns s2) as (Hclosed & Hrel & _).
  split; [|exact Hclosed].
  rewrite Hrel, Hevs. simpl. rewrite releases_app, Hall.
  assert (Hz : releases evs = O).
  { clear -Hev. induction Hev as [|e evs He _ IH]; [reflexivity|].
    destruct e; simpl in *; try contradiction; exact IH. }
  rewrite Hz. reflexivity.
Qed.

Lemma capture_released_once_witness :
  releases (trace (snd (video_to_ascii_cli interrupted_in_display "clip.mp4" 80
                          (initial ∅)))) = 1%nat.
Proof.
  destruct (capture_released_once interrupted_in_display "clip.mp4" 80 ∅
              eq_refl eq_refl eq_refl eq_refl) as [H _].
  exact H.
Defined.

(** ** The WAV fallback *)

Lemma replace_changes_match (s a b : string) :
  str_replace ".mp3" ".wav" s = s -> s <> (a +:+ ".mp3" +:+ b)%string.
Proof.
  unfold str_replace. revert a.
  induction s as [|c r IH]; intros a Hfix Heq.
  - destruct a; discriminate Heq.
  - cbn [replace_from] in Hfix.
    destruct (String.prefix ".mp3" (String c r)) eqn:Hp.
    + simpl in Hfix. injection Hfix as <- Hr. rewrite <- Hr in Hp.
      vm_compute in Hp. discriminate Hp.
    + injection Hfix as Hfix.
      destruct a as [|c' a]; simpl in Heq.
      * injection Heq as -> ->. simpl in Hp. destruct b; discriminate Hp.
      * injection Heq as _ Heq. exact (IH a Hfix Heq).
Qed.

Lemma append_assoc (a b c : string) : ((a +:+ b) +:+ c = a +:+ (b +:+ c))%string.
Proof.
  induction a as [|x a IH]; [reflexivity|].
  change (String x ((a +:+ b) +:+ c) = String x (a +:+ (b +:+ c)))%string.
  rewrite IH. reflexivity.
Qed.

Lemma wav_path_not_mp3_path w : wav_path w <> mp3_path w.
Proof.
  intros H.
  apply (replace_changes_match _ ("Temp/" +:+ video_name w +:+ "_audio") "" H).
  unfold mp3_path, path_join, temp_dir.
  change "_audio.mp3"%string with ("_audio" +:+ ".mp3" +:+ "")%string.
  rewrite <- !append_assoc. reflexivity.
Qed.

Lemma prepare_audio_wav w path s n :
  wav_extracted w n ->
  wp (prepare_audio w path) s
     (fun r s' =>
        r = Ok tt /\ tick s' = tick s /\
        audio_path s' = Some (wav_path w) /\
        fs s' !! mp3_path w = AudioFile <$> mp3_file w).
Proof.
  intros (H1 & H2 & H3 & (e & H4 & He) & H5 & H6 & Hn & H7 & H8).
  pose proof (wav_path_not_mp3_path w) as Hne.
  destruct s as [ap vc fc st tfd co cf files tk tr].
  unfold prepare_audio, extract_audio, verify_audio, write_audiofile.
  cbv zeta. rewrite H1, H2, H3, H4, H5, H6, H7, H8.
  fold (mp3_path w). fold (wav_path w).
  revert Hne. generalize (wav_path w). generalize (mp3_path w).
  intros mp3 wav Hne.
  destruct e; [| |discriminate He].
  all: repeat (wp_step3 w; prune); wp_simpl.
  all: try (exfalso; stage_leaf; fail).
  all: repeat (split; [reflexivity|]).
  all: rewrite lookup_insert_ne by exact Hne.
  all: rewrite ?lookup_insert_eq, ?lookup_delete_eq; try reflexivity.
  all: apply bool_decide_eq_false in Heqb; apply eq_None_not_Some in Heqb;
    exact Heqb.
Qed.

(** X13.  The WAV fallback.  When the MP3 extraction fails with an
    ordinary exception and the WAV extraction succeeds, the WAV file is
    the one that is played and removed at the end; whatever the failed
    MP3 extraction left at the MP3 path is never removed. *)
Theorem wav_fallback_leaves_partial_mp3 (w : env) (video_path : string)
    (columns : Z) (files : gmap string file) (n : Z) :
  wav_extracted w n ->
  capture_opens w = true -> play_start w = None -> cleanup_remove w = None ->
  fault w O = None ->
  let s' := snd (video_to_ascii_cli w video_path columns (initial files)) in
  In (EvPlay (wav_path w)) (trace s') /\
  fs s' !! wav_path w = None /\
  fs s' !! mp3_path w = AudioFile <$> mp3_file w.
Proof.
  intros Hx Ho Hs Hc Hf. cbv zeta.
  unfold video_to_ascii_cli, bind.
  destruct (prepare_audio w video_path (initial files)) as [r1 s1] eqn:E1.
  destruct (wp_elim _ _ _ _ _ (prepare_audio_wav w video_path _ n Hx) E1)
    as (-> & Ht & Hap & Hfs).
  destruct (play_video_round_trip w video_path columns s1 _ Hap Ho Hs Hc)
    as (Hrm & post & Hpost & _).
  { rewrite Ht. exact Hf. }
  split; [|split].
  - rewrite Hpost. apply in_or_app. right. left. reflexivity.
  - exact Hrm.
  - rewrite play_video_keeps; [exact Hfs | apply mp3_path_not_temp_frame |].
    rewrite Hap. intros H. apply (wav_path_not_mp3_path w). congruence.
Qed.

Lemma wav_fallback_leaves_partial_mp3_witness :
  fs (snd (video_to_ascii_cli (mp3_codec_missing 100) "clip.mp4" 80 (initial ∅)))
    !! "Temp/clip_audio.mp3" = Some (AudioFile 100).
Proof.
  assert (Hx : wav_extracted (mp3_codec_missing 100) 4096).
  { unfold wav_extracted. repeat split; try reflexivity.
    exists OtherException. split; reflexivity. }
  destruct (wav_fallback_leaves_partial_mp3 (mp3_codec_missing 100) "clip.mp4" 80 ∅
              4096 Hx eq_refl eq_refl eq_refl eq_refl) as (_ & _ & H).
  exact H.
Defined.

Lemma extracted_audio_played_then_removed_witness :
  fs (snd (video_to_ascii_cli (with_audio 2048 [vga]) "clip.mp4" 80 (initial ∅)))
    !! "Temp/clip_audio.mp3" = None.
Proof.
  assert (Hx : mp3_extracted (with_audio 2048 [vga]) 2048)
    by (repeat split; reflexivity).
  destruct (extracted_audio_played_then_removed (with_audio 2048 [vga]) "clip.mp4"
              80 ∅ 2048 Hx eq_refl eq_refl eq_refl eq_refl eq_refl eq_refl)
    as [H _].
  exact H.
Defined.

Lemma defective_audio_left_behind_witness :
  fs (snd (video_to_ascii_cli (with_audio 0 [vga]) "clip.mp4" 80 (initial ∅)))
    !! "Temp/clip_audio.mp3" = Some (AudioFile 0).
Proof.
  assert (Hx : mp3_extracted (with_audio 0 [vga]) 0)
    by (repeat split; reflexivity).
  apply (defective_audio_left_behind (with_audio 0 [vga]) "clip.mp4" 80 ∅ 0 Hx).
  left. lia.
Defined.

(** ** A left-over audio file that cannot be removed *)

Lemma prepare_audio_stale w path s f e :
  clip_load w = None -> clip_has_audio w = true ->
  fs s !! mp3_path w = Some f ->
  stale_remove w = Some e -> is_Exception e = true ->
  wp (prepare_audio w path) s
     (fun r s' => fs s' = fs s /\ audio_path s' = None /\
                  (clip_close w = None -> r = Ok tt)).
Proof.
  intros H1 H2 Hf H3 He.
  destruct s as [ap vc fc st tfd co cf files tk tr]. simpl in Hf.
  unfold prepare_audio.
  rewrite H1, H2, H3. fold (mp3_path w).
  destruct e; [| |discriminate He].
  all: repeat (wp_step3 w; prune); wp_simpl.
  all: try (exfalso; rewrite Hf in *; stage_leaf;
            match goal with
            | H : bool_decide _ = false |- _ =>
                apply bool_decide_eq_false in H; apply H; eauto
            end; fail).
  all: repeat split; congruence.
Qed.

(** X14.  When a left-over audio file from an earlier run cannot be
    removed, the whole audio stage is abandoned: nothing is extracted
    over the old file, which stays as it was, and no audio playback is
    started. *)
Theorem stale_audio_blocks_extraction (w : env) (video_path : string)
    (columns : Z) (files : gmap string file) (f : file) (e : exn) :
  clip_load w = None -> clip_has_audio w = true ->
  files !! mp3_path w = Some f ->
  stale_remove w = Some e -> is_Exception e = true ->
  let s' := snd (video_to_ascii_cli w video_path columns (initial files)) in
  fs s' !! mp3_path w = Some f /\ Forall no_play (trace s').
Proof.
  intros H1 H2 Hf H3 He. cbv zeta. unfold video_to_ascii_cli, bind.
  pose proof (prepare_audio_stage_only w video_path (initial files))
    as ((pre & Ht & Hall) & _ & _).
  pose proof (prepare_audio_stale w video_path (initial files) f e H1 H2 Hf H3 He)
    as (Hfs & Hap & _).
  unfold wp in *.
  destruct (prepare_audio w video_path (initial files)) as [r1 s1].
  simpl in Ht, Hfs, Hap.
  assert (Hpre : Forall no_play (trace s1)).
  { rewrite Ht. simpl. eapply Forall_impl; [exact Hall|].
    intros []; simpl; auto. }
  destruct r1 as [[]|x|]; simpl; try (split; [rewrite Hfs; exact Hf | exact Hpre]).
  split.
  - rewrite play_video_keeps;
      [ rewrite Hfs; exact Hf | apply mp3_path_not_temp_frame | congruence ].
  - destruct (play_video_no_play w video_path columns s1 (or_introl Hap))
      as (evs & Hevs & Hnp).
    rewrite Hevs. apply Forall_app. split; assumption.
Qed.

Lemma stale_audio_blocks_extraction_witness :
  fs (snd (video_to_ascii_cli stale_audio_locked "clip.mp4" 80
             (initial {["Temp/clip_audio.mp3" := AudioFile 7]})))
    !! "Temp/clip_audio.mp3" = Some (AudioFile 7).
Proof.
  assert (Hf : ({["Temp/clip_audio.mp3" := AudioFile 7]} : gmap string file)
                 !! mp3_path stale_audio_locked = Some (AudioFile 7))
    by reflexivity.
  destruct (stale_audio_blocks_extraction stale_audio_locked "clip.mp4" 80
              {["Temp/clip_audio.mp3" := AudioFile 7]} (AudioFile 7) OtherException
              eq_refl eq_refl Hf eq_refl eq_refl) as [H _].
  exact H.
Defined.

(** ** The fallback through the temporary picture *)



